(** * The Redis task store: primary records and their two indexes

    A shallow embedding of [task_store.py] (class [RedisTaskStore]), of
    the request handlers of [main.py] that sit on top of it and of the
    client of [redis_client.py], together with the properties of the
    index-maintenance and query logic.

    The Redis server is modelled by the three kinds of keys the store
    uses: hashes (the primary record [task:<id>]), sets (the status
    buckets [tasks:<user>:status:<status>]) and sorted sets (the due index
    [tasks:<user>:due]).  A key whose container becomes empty disappears,
    as in Redis.  Python exceptions are an explicit [Raise] result. *)

From Stdlib Require Import ZArith Lia String Ascii Decimal DecimalString DecimalZ.
From stdpp Require Import base option list gmap sets strings.

Open Scope Z_scope.
Open Scope string_scope.

(** ** Python values and exceptions *)

(** The values a JSON payload puts into the [updates] dict, and the values
    of the dict [get_task] returns. *)
Inductive pyval :=
  | PNone
  | PStr (s : string)
  | PInt (z : Z).

#[global] Instance pyval_eq_dec : EqDecision pyval.
Proof. solve_decision. Defined.

Inductive exn := ValueError | TypeError | KeyError | OverflowError.

Inductive result (A : Type) :=
  | Ok (a : A)
  | Raise (e : exn).
Arguments Ok {A} a.
Arguments Raise {A} e.

Definition bind {A B} (m : result A) (k : A → result B) : result B :=
  match m with
  | Ok a => k a
  | Raise e => Raise e
  end.

Notation "'try!' x ':=' m 'in' k" := (bind m (λ x, k))
  (at level 10, x name, m at level 100, k at level 200, only parsing).

(** [[f(x) for x in l]] where [f] may raise: the first exception wins. *)
Fixpoint mapM {A B} (f : A → result B) (l : list A) : result (list B) :=
  match l with
  | [] => Ok []
  | x :: l' => try! y := f x in try! ys := mapM f l' in Ok (y :: ys)
  end.

(** [str(z)] and [int(s)] on decimal strings.  [py_int] accepts an optional
    minus sign followed by digits, which is all [str] of an integer ever
    produces; anything else is the [ValueError] of [int()]. *)
Definition str_Z (z : Z) : string := NilZero.string_of_int (Z.to_int z).

Definition py_int (s : string) : result Z :=
  match NilZero.int_of_string s with
  | Some d => Ok (Z.of_int d)
  | None => Raise ValueError
  end.

(** [str(v)], also what an f-string does with [v]. *)
Definition py_str (v : pyval) : string :=
  match v with
  | PNone => "None"
  | PStr s => s
  | PInt z => str_Z z
  end.

(** Truthiness: [if v:]. *)
Definition truthy (v : pyval) : bool :=
  match v with
  | PNone => false
  | PStr s => negb (String.eqb s "")
  | PInt z => negb (Z.eqb z 0)
  end.

(** ** The Redis server *)

Record redis := Redis {
  hashes : gmap string (gmap string string);
  sets : gmap string (gset string);
  zsets : gmap string (gmap string Z)
}.

Definition empty_redis : redis := Redis ∅ ∅ ∅.

(** HGETALL: the fields of a hash, the empty dict for a missing key. *)
Definition hgetall (r : redis) (key : string) : gmap string string :=
  default ∅ (hashes r !! key).

(** HSET key mapping: the given fields overwrite, the others stay. *)
Definition hset (r : redis) (key : string) (mapping : gmap string string) : redis :=
  Redis (<[key := mapping ∪ hgetall r key]> (hashes r)) (sets r) (zsets r).

(** DEL key, whatever the key holds. *)
Definition del (r : redis) (key : string) : redis :=
  Redis (delete key (hashes r)) (delete key (sets r)) (delete key (zsets r)).

Definition smembers (r : redis) (key : string) : gset string :=
  default ∅ (sets r !! key).

Definition sadd (r : redis) (key member : string) : redis :=
  Redis (hashes r) (<[key := {[member]} ∪ smembers r key]> (sets r)) (zsets r).

Definition srem (r : redis) (key member : string) : redis :=
  let s := smembers r key ∖ {[member]} in
  Redis (hashes r)
        (if decide (s = ∅) then delete key (sets r) else <[key := s]> (sets r))
        (zsets r).

(** The members of a sorted set with their scores. *)
Definition zmembers (r : redis) (key : string) : gmap string Z :=
  default ∅ (zsets r !! key).

Definition zscore (r : redis) (key member : string) : option Z :=
  zmembers r key !! member.

(** ZADD key {member: score}: an upsert. *)
Definition zadd (r : redis) (key member : string) (score : Z) : redis :=
  Redis (hashes r) (sets r) (<[key := <[member := score]> (zmembers r key)]> (zsets r)).

Definition zrem (r : redis) (key member : string) : redis :=
  let z := delete member (zmembers r key) in
  Redis (hashes r) (sets r)
        (if decide (z = ∅) then delete key (zsets r) else <[key := z]> (zsets r)).

(** The bounds of ZRANGEBYSCORE: a score, ["-inf"] or ["+inf"]. *)
Inductive bound := NegInf | PosInf | Score (z : Z).

Definition bound_le_score (b : bound) (z : Z) : bool :=
  match b with
  | NegInf => true
  | PosInf => false
  | Score x => Z.leb x z
  end.

Definition score_le_bound (z : Z) (b : bound) : bool :=
  match b with
  | NegInf => false
  | PosInf => true
  | Score x => Z.leb z x
  end.

Definition in_range (lo hi : bound) (z : Z) : bool :=
  bound_le_score lo z && score_le_bound z hi.

(** ZRANGEBYSCORE key min max: the members whose score is between the two
    bounds, both included.  The store only ever turns the answer into a
    set, so the order of the list is left as the map gives it. *)
Definition zrangebyscore (r : redis) (key : string) (lo hi : bound) : list string :=
  (map_to_list (filter (λ kv, in_range lo hi kv.2 = true) (zmembers r key))).*1.

(** A pipeline: the commands queued on it are executed together, in the
    order they were queued. *)
Inductive command :=
  | HSET (key : string) (mapping : gmap string string)
  | SADD (key member : string)
  | ZADD (key member : string) (score : Z).

Definition run_command (r : redis) (c : command) : redis :=
  match c with
  | HSET key mapping => hset r key mapping
  | SADD key member => sadd r key member
  | ZADD key member score => zadd r key member score
  end.

Definition execute (r : redis) (pipe : list command) : redis :=
  foldl run_command r pipe.

(** ** Key names *)

Definition _task_key (task_id : string) : string := "task:" +:+ task_id.

Definition _status_key (user_id status : string) : string :=
  "tasks:" +:+ user_id +:+ ":status:" +:+ status.

Definition _due_key (user_id : string) : string := "tasks:" +:+ user_id +:+ ":due".

(** ** task_store.py: class RedisTaskStore *)

Module TaskStore.
Section Store.

(** [datetime.fromtimestamp(z).strftime("%Y-%m-%d %H:%M:%S")]: the due
    time as the read path shows it, in the time zone of the server.  It
    raises for a time stamp outside the range of [datetime]. *)
Variable fromtimestamp_strftime : Z → result string.

(** [dateparser.parse(s)], as epoch seconds; [None] when the text is not
    understood. *)
Variable dateparser_parse : string → option Z.

(** utils.py.  A value that is no string is a [TypeError] of the parser. *)
Definition get_parsed_timestamp (time_str : pyval) : result Z :=
  match time_str with
  | PStr s =>
      match dateparser_parse s with
      | Some z => Ok z
      | None => Raise ValueError
      end
  | _ => Raise TypeError
  end.

(** [int(task["due_time"]) if task.get("due_time") not in (None, "", "0")
    else None], the expression [get_task] and [update_task] share. *)
Definition due_time_field (task : gmap string string) : result (option Z) :=
  match task !! "due_time" with
  | None => Ok None
  | Some s =>
      if decide (s = "" ∨ s = "0") then Ok None
      else try! z := py_int s in Ok (Some z)
  end.

(** The generated id [str(uuid.uuid4())] and the clock reading
    [get_current_timestamp()] are arguments. *)
Definition create_task (r : redis) (uuid4 : string) (now : Z)
    (user_id description status : string) (due_time : option Z) : redis * string :=
  let task_id := uuid4 in
  let task_key := _task_key task_id in
  let task_data : gmap string string :=
    {[ "id" := task_id;
       "user_id" := user_id;
       "description" := description;
       "status" := status;
       "due_time" := match due_time with Some d => str_Z d | None => "" end;
       "created_at" := str_Z now ]} in
  let r := hset r task_key task_data in
  let r := sadd r (_status_key user_id status) task_id in
  let r := match due_time with
           | Some d => zadd r (_due_key user_id) task_id d
           | None => r
           end in
  (r, task_id).

(** A task dict of [create_tasks_bulk], as its docstring types it: a
    description, an optional status and an optional due time in epoch
    seconds.  The handler also puts a [user_id] into the dict, which the
    store never reads. *)
Record bulk_task := {
  bulk_description : string;
  bulk_status : option string;
  bulk_due_time : option Z;
  bulk_user_id : option string
}.

(** The loop of [create_tasks_bulk] from the [i]-th task on: the ids drawn
    and the commands put on the pipeline.  [uuid4 i] is the [i]-th id that
    the call draws. *)
Fixpoint queue_tasks (uuid4 : nat → string) (now : Z) (user_id : string) (i : nat)
    (tasks : list bulk_task) : list string * list command :=
  match tasks with
  | [] => ([], [])
  | task :: rest =>
      let task_id := uuid4 i in
      let description := bulk_description task in
      let status := default "pending" (bulk_status task) in
      let due_time := bulk_due_time task in
      let task_key := _task_key task_id in
      let task_data : gmap string string :=
        {[ "id" := task_id;
           "user_id" := user_id;
           "description" := description;
           "status" := status;
           "due_time" := match due_time with Some d => str_Z d | None => "" end;
           "created_at" := str_Z now ]} in
      let queued :=
        ([HSET task_key task_data; SADD (_status_key user_id status) task_id]
         ++ match due_time with
            | Some d => [ZADD (_due_key user_id) task_id d]
            | None => []
            end)%list in
      let '(task_ids, pipe) := queue_tasks uuid4 now user_id (S i) rest in
      (task_id :: task_ids, (queued ++ pipe)%list)
  end.

Definition create_tasks_bulk (r : redis) (uuid4 : nat → string) (now : Z)
    (user_id : string) (tasks : list bulk_task) : redis * list string :=
  let '(task_ids, pipe) := queue_tasks uuid4 now user_id 0 tasks in
  (execute r pipe, task_ids).

Definition get_task (r : redis) (task_id : string)
    : result (option (gmap string pyval)) :=
  let task_key := _task_key task_id in
  let task := hgetall r task_key in
  if decide (task = ∅) then Ok None
  else
    try! due := due_time_field task in
    try! shown := match due with
                  | Some z => try! s := fromtimestamp_strftime z in Ok (PStr s)
                  | None => Ok PNone
                  end in
    Ok (Some (<["due_time" := shown]> (PStr <$> task))).

(** [updates.get("due_time") in (None, "", "None")]. *)
Definition keeps_due_time (v : pyval) : Prop :=
  v = PNone ∨ v = PStr "" ∨ v = PStr "None".

#[global] Instance keeps_due_time_dec v : Decision (keeps_due_time v).
Proof. unfold keeps_due_time. apply _. Defined.

(** The loop [for k, v in updates.items(): task[k] = ...]. *)
Definition apply_updates (task : gmap string string) (updates : gmap string pyval)
    (new_due_time : option Z) : gmap string string :=
  map_fold (λ k v task,
              if decide (k = "due_time")
              then <[k := match new_due_time with Some d => str_Z d | None => "" end]> task
              else <[k := match v with PNone => "" | _ => py_str v end]> task)
           task updates.

Definition update_task (r : redis) (user_id task_id : string)
    (updates : gmap string pyval) : result (redis * bool) :=
  let task_key := _task_key task_id in
  let task := hgetall r task_key in
  if decide (task = ∅) then Ok (r, false)
  else
    try! old_status := match task !! "status" with
                       | Some s => Ok s
                       | None => Raise KeyError
                       end in
    try! old_due_time := due_time_field task in
    try! new_due_time :=
      match updates !! "due_time" with
      | Some v =>
          if decide (keeps_due_time v) then Ok old_due_time
          else try! z := get_parsed_timestamp v in Ok (Some z)
      | None => Ok old_due_time
      end in
    let task := apply_updates task updates new_due_time in
    let r := hset r (_task_key task_id) task in
    let r := match updates !! "status" with
             | Some new_status =>
                 if decide (new_status ≠ PStr old_status)
                 then sadd (srem r (_status_key user_id old_status) task_id)
                           (_status_key user_id (py_str new_status)) task_id
                 else r
             | None => r
             end in
    let r := match updates !! "due_time" with
             | Some _ =>
                 let r := match old_due_time with
                          | Some d => if decide (d ≠ 0)
                                      then zrem r (_due_key user_id) task_id
                                      else r
                          | None => r
                          end in
                 match new_due_time with
                 | Some d => zadd r (_due_key user_id) task_id d
                 | None => r
                 end
             | None => r
             end in
    Ok (r, true).

Definition delete_task (r : redis) (user_id task_id : string)
    : result (redis * bool) :=
  try! task := get_task r task_id in
  match task with
  | None => Ok (r, false)
  | Some task =>
      let due_time := default PNone (task !! "due_time") in
      let r := match task !! "status" with
               | Some status =>
                   if decide (status = PNone ∨ status = PStr "" ∨ status = PStr "0")
                   then r
                   else srem r (_status_key user_id (py_str status)) task_id
               | None => r
               end in
      let r := if truthy due_time then zrem r (_due_key user_id) task_id else r in
      Ok (del r (_task_key task_id), true)
  end.

Definition get_tasks_by_status (r : redis) (user_id status : string)
    : result (list (option (gmap string pyval))) :=
  let task_ids := smembers r (_status_key user_id status) in
  mapM (get_task r) (elements task_ids).

Definition get_tasks_by_due_range (r : redis) (user_id : string) (start end_ : Z)
    : result (list (option (gmap string pyval))) :=
  let task_ids := zrangebyscore r (_due_key user_id) (Score start) (Score end_) in
  mapM (get_task r) task_ids.

(** [statuses] is [None] or a list; a Python set is iterated in no
    particular order, here in the order [elements] gives. *)
Definition get_tasks_by_filters (r : redis) (user_id : string)
    (statuses : option (list string)) (start end_ : option Z)
    : result (list (option (gmap string pyval))) :=
  let min_arg := match start with
                 | Some z => if decide (0 < String.length (str_Z z))%nat
                             then Score z else NegInf
                 | None => NegInf
                 end in
  let max_arg := match end_ with
                 | Some z => if decide (0 < String.length (str_Z z))%nat
                             then Score z else PosInf
                 | None => PosInf
                 end in
  let time_ids : option (gset string) :=
    if decide (start ≠ None ∨ end_ ≠ None)
    then Some (list_to_set (zrangebyscore r (_due_key user_id) min_arg max_arg))
    else None in
  let status_ids : option (gset string) :=
    match statuses with
    | Some ((_ :: _) as l) =>
        let buckets := (λ s, smembers r (_status_key user_id s)) <$> l in
        Some (⋃ buckets)
    | _ => None
    end in
  let found : option (gset string) :=
    match status_ids, time_ids with
    | Some s, Some t => Some (s ∩ t)
    | Some s, None => Some s
    | None, Some t => Some t
    | None, None => None
    end in
  match found with
  | None => Ok []
  | Some ids =>
      if decide (ids = ∅) then Ok []
      else mapM (get_task r) (elements ids)
  end.

End Store.
End TaskStore.

(** ** main.py: the request handlers over the store *)

Module Main.

(** What a handler answers: the value it returns, or the status code of
    the [HTTPException] it raises. *)
Inductive response (A : Type) :=
  | Respond (a : A)
  | HTTPException (status_code : Z).
Arguments Respond {A} a.
Arguments HTTPException {A} status_code.

(** The request body of PUT /tasks/{task_id}.  An optional field is
    unset ([None]), set to null ([Some None]) or set to a string. *)
Record TaskUpdate := {
  description : option (option string);
  due_time : option (option string);
  status : option (option string);
  user_id : string
}.

Definition dump_field (k : string) (f : option (option string))
    (d : gmap string pyval) : gmap string pyval :=
  match f with
  | Some (Some s) => <[k := PStr s]> d
  | Some None => <[k := PNone]> d
  | None => d
  end.

(** [updates.model_dump(exclude_unset=True)]. *)
Definition model_dump (u : TaskUpdate) : gmap string pyval :=
  dump_field "description" (description u)
    (dump_field "due_time" (due_time u)
       (dump_field "status" (status u) {[ "user_id" := PStr (user_id u) ]})).

(** A task of the request body of POST /tasks, after validation: the
    status is one the validator let through, or the default. *)
Record TaskCreate := {
  create_description : string;
  create_due_time : option string;
  create_status : string;
  create_user_id : string
}.

(** [TaskBase.validate_status]. *)
Definition TaskBase_validate_status (v : option string) : result (option string) :=
  if decide (v ∈ [Some "pending"; Some "completed"]) then Ok v
  else Raise ValueError.

(** [TaskUpdate.validate_status]: [if v and v not in [...]]. *)
Definition TaskUpdate_validate_status (v : option string) : result (option string) :=
  if decide (truthy (from_option PStr PNone v) = true ∧
             v ∉ [Some "pending"; Some "completed"])
  then Raise ValueError
  else Ok v.

Section Handlers.

Variable fromtimestamp_strftime : Z → result string.
Variable dateparser_parse : string → option Z.

(** [get_parsed_timestamp(t) if t else None]. *)
Definition parsed_or_none (t : option string) : result (option Z) :=
  match t with
  | Some s =>
      if decide (s = "") then Ok None
      else try! z := TaskStore.get_parsed_timestamp dateparser_parse (PStr s) in
           Ok (Some z)
  | None => Ok None
  end.

(** GET /tasks.  Every exception becomes a 500. *)
Definition get_tasks (r : redis) (user_id : string) (statuses : option (list string))
    (start_time end_time : option string)
    : response (list (option (gmap string pyval))) :=
  let body :=
    try! start_ts := parsed_or_none start_time in
    try! end_ts := parsed_or_none end_time in
    let statuses := match statuses with
                    | Some ((_ :: _) as l) => l
                    | _ => ["pending"; "completed"]
                    end in
    try! tasks := TaskStore.get_tasks_by_filters fromtimestamp_strftime r user_id
                    (Some statuses) start_ts end_ts in
    Ok (filter (λ task, task ≠ None) tasks) in
  match body with
  | Ok tasks => Respond tasks
  | Raise _ => HTTPException 500
  end.

(** PUT /tasks/{task_id}.  The store is left as the store call left it. *)
Definition update_task (r : redis) (task_id : string) (updates : TaskUpdate)
    : redis * response string :=
  let update_dict := model_dump updates in
  let user_id := update_dict !! "user_id" in
  let update_dict := delete "user_id" update_dict in
  match user_id with
  | Some (PStr u) =>
      if decide (u = "") then (r, HTTPException 500)
      else
        match TaskStore.update_task dateparser_parse r u task_id update_dict with
        | Ok (r', true) => (r', Respond "Task updated successfully")
        | Ok (r', false) => (r', HTTPException 404)
        | Raise _ => (r, HTTPException 500)
        end
  | _ => (r, HTTPException 500)
  end.

(** GET /task/{task_id}. *)
Definition get_task (r : redis) (task_id : string)
    : response (option (gmap string pyval)) :=
  match TaskStore.get_task fromtimestamp_strftime r task_id with
  | Ok tasks => Respond tasks
  | Raise _ => HTTPException 500
  end.

(** POST /tasks.  The task dicts are built, due times parsed, before the
    store is called. *)
Definition create_tasks (r : redis) (uuid4 : nat → string) (now : Z)
    (user_id : string) (tasks : list TaskCreate) : redis * response (list string) :=
  let task_dicts :=
    mapM (λ task,
            try! due := parsed_or_none (create_due_time task) in
            Ok {| TaskStore.bulk_description := create_description task;
                  TaskStore.bulk_user_id := Some (create_user_id task);
                  TaskStore.bulk_status := Some (create_status task);
                  TaskStore.bulk_due_time := due |})
         tasks in
  match task_dicts with
  | Ok task_dicts =>
      let '(r', task_ids) :=
        TaskStore.create_tasks_bulk r uuid4 now user_id task_dicts in
      (r', Respond task_ids)
  | Raise _ => (r, HTTPException 500)
  end.

(** DELETE /tasks/{task_id}: the store is called for the user "user-1". *)
Definition delete_task (r : redis) (task_id : string) : redis * response string :=
  match TaskStore.delete_task fromtimestamp_strftime r "user-1" task_id with
  | Ok (r', true) => (r', Respond "Task deleted successfully")
  | Ok (r', false) => (r', HTTPException 404)
  | Raise _ => (r, HTTPException 500)
  end.

End Handlers.
End Main.

(** ** redis_client.py: class RedisClientSingleton *)

Module RedisClientSingleton.

(** The client object; building it opens no connection. *)
Inductive client := Redis_127_0_0_1_6379.

(** [get_client] on the class attribute [_instance]; [ping] tells whether
    the connection test succeeds, should it be made.  The answer is the
    new [_instance] and the client returned, [None] for the exception of
    the failed test. *)
Definition get_client (_instance : option client) (ping : bool)
    : option client * option client :=
  match _instance with
  | None =>
      let _instance := Some Redis_127_0_0_1_6379 in
      if ping then (_instance, _instance) else (_instance, None)
  | Some c => (_instance, Some c)
  end.

End RedisClientSingleton.

(** ** A concrete clock and parser

    The properties below hold for every formatter and parser; where a run
    is evaluated on a concrete store, the formatter is the UTC one and the
    parser reads decimal epoch seconds. *)

Definition pad2 (n : Z) : string :=
  if Z.ltb n 10 then "0" +:+ str_Z n else str_Z n.

(** Civil date of a day count since 1970-01-01. *)
Definition civil_from_days (days : Z) : Z * Z * Z :=
  let z := days + 719468 in
  let era := z / 146097 in
  let doe := z - era * 146097 in
  let yoe := (doe - doe / 1460 + doe / 36524 - doe / 146096) / 365 in
  let doy := doe - (365 * yoe + yoe / 4 - yoe / 100) in
  let mp := (5 * doy + 2) / 153 in
  let d := doy - (153 * mp + 2) / 5 + 1 in
  let m := if Z.ltb mp 10 then mp + 3 else mp - 9 in
  let y := yoe + era * 400 + (if Z.leb m 2 then 1 else 0) in
  (y, m, d).

Definition strftime_utc (ts : Z) : result string :=
  let '(y, m, d) := civil_from_days (ts / 86400) in
  let secs := ts mod 86400 in
  if Z.leb 1 y && Z.leb y 9999
  then Ok (str_Z y +:+ "-" +:+ pad2 m +:+ "-" +:+ pad2 d +:+ " " +:+
           pad2 (secs / 3600) +:+ ":" +:+ pad2 (secs mod 3600 / 60) +:+ ":" +:+
           pad2 (secs mod 60))
  else Raise ValueError.

Definition parse_epoch (s : string) : option Z :=
  match py_int s with
  | Ok z => Some z
  | Raise _ => None
  end.

(** * What the properties speak of *)

(** ** Statuses and the update loop *)

(** The status enumeration. *)
Definition valid_status (s : string) : Prop := s = "pending" ∨ s = "completed".

#[global] Instance valid_status_dec s : Decision (valid_status s).
Proof. unfold valid_status. apply _. Defined.

(** What the loop of [update_task] writes for the key [k] with value [v]. *)
Definition updated_field (k : string) (v : pyval) (new_due_time : option Z) : string :=
  if decide (k = "due_time")
  then match new_due_time with Some d => str_Z d | None => "" end
  else match v with PNone => "" | _ => py_str v end.

(** The status step of [update_task]. *)
Definition move_status (r : redis) (user_id task_id old_status : string)
    (new_status : option pyval) : redis :=
  match new_status with
  | Some v =>
      if decide (v ≠ PStr old_status)
      then sadd (srem r (_status_key user_id old_status) task_id)
                (_status_key user_id (py_str v)) task_id
      else r
  | None => r
  end.

(** The status step of [delete_task]. *)
Definition drop_status (r : redis) (user_id task_id : string)
    (status : option string) : redis :=
  match status with
  | Some st =>
      if decide (st = "" ∨ st = "0") then r
      else srem r (_status_key user_id st) task_id
  | None => r
  end.

(** ** Existing tasks *)

(** How the store writes an optional due time into the record. *)
Definition encode_due (due : option Z) : string :=
  match due with
  | Some d => str_Z d
  | None => ""
  end.

(** The primary record of [task_id] exists, with this status and this due
    time as the store writes them. *)
Definition holds_task (r : redis) (task_id status : string) (due : option Z) : Prop :=
  hgetall r (_task_key task_id) !! "status" = Some status ∧
  hgetall r (_task_key task_id) !! "due_time" = Some (encode_due due).

(** The server after a call: an exception leaves it as it was, since every
    exception of [update_task] and [delete_task] comes before their first
    write. *)
Definition state_after (r : redis) (res : result (redis * bool)) : redis :=
  match res with
  | Ok (r', _) => r'
  | Raise _ => r
  end.

(** What the read path makes of a due time: epoch 0 reads as absent. *)
Definition read_due (due : option Z) : option Z :=
  match due with
  | Some d => if decide (d = 0) then None else Some d
  | None => None
  end.

(** [start <= d <= end_], a missing bound being no bound. *)
Definition within (start end_ : option Z) (d : Z) : Prop :=
  (∀ s, start = Some s → (s ≤ d)%Z) ∧ (∀ e, end_ = Some e → (d ≤ e)%Z).

(** No status filter: [statuses] is [None] or the empty list. *)
Definition no_statuses (statuses : option (list string)) : Prop :=
  statuses = None ∨ statuses = Some [].

(** [task_id] is in one of the status buckets of the user that [l] names. *)
Definition in_buckets (r : redis) (user_id : string) (l : list string)
    (task_id : string) : Prop :=
  ∃ s, s ∈ l ∧ task_id ∈ smembers r (_status_key user_id s).

(** The record of [task_id] belongs to the user and its due time lies in
    the range. *)
Definition due_within (r : redis) (user_id : string) (start end_ : option Z)
    (task_id : string) : Prop :=
  ∃ d, hgetall r (_task_key task_id) !! "user_id" = Some user_id ∧
       hgetall r (_task_key task_id) !! "due_time" = Some (str_Z d) ∧
       within start end_ d.

(** The due index of a user holds exactly the tasks of that user that have
    a due time, each at that due time. *)
Definition due_index_matches (r : redis) (user_id : string) : Prop :=
  ∀ t d, zscore r (_due_key user_id) t = Some d ↔
         hgetall r (_task_key t) !! "user_id" = Some user_id ∧
         hgetall r (_task_key t) !! "due_time" = Some (str_Z d).

(** *** Runs of the store *)

(** One call of the store; a creation carries the id that [uuid4] drew and
    the reading of the clock. *)
Inductive op :=
  | Create (uuid4 : string) (now : Z) (user_id description status : string)
           (due_time : option Z)
  | Update (user_id task_id : string) (updates : gmap string pyval)
  | Delete (user_id task_id : string).

(** Who created which task: the owning user of a task id. *)
Definition owners_step (owners : gmap string string) (o : op) : gmap string string :=
  match o with
  | Create uuid4 _ user_id _ _ _ => <[uuid4 := user_id]> owners
  | _ => owners
  end.

Definition owners (ops : list op) : gmap string string := foldl owners_step ∅ ops.

(** A call as the status index property takes it: a creation draws an id never drawn
    before and gives a status of the enumeration; an update or a delete of
    an existing task is made with its owning user, and an update that
    carries a status carries one of the enumeration. *)
Definition admissible (r : redis) (owners : gmap string string) (o : op) : Prop :=
  match o with
  | Create uuid4 _ _ _ status _ => owners !! uuid4 = None ∧ valid_status status
  | Update user_id task_id updates =>
      (hgetall r (_task_key task_id) ≠ ∅ → owners !! task_id = Some user_id) ∧
      (∀ v, updates !! "status" = Some v → ∃ s, v = PStr s ∧ valid_status s)
  | Delete user_id task_id =>
      hgetall r (_task_key task_id) ≠ ∅ → owners !! task_id = Some user_id
  end.

(** The status index and the records agree: a task id is in the bucket of a
    user and a status exactly when that user owns it and its record exists
    with that status. *)
Definition status_index_agrees (r : redis) (owners : gmap string string) : Prop :=
  ∀ t u s, valid_status s →
    t ∈ smembers r (_status_key u s)
    ↔ owners !! t = Some u ∧ hgetall r (_task_key t) !! "status" = Some s.

(** Every record belongs to a task that was created and carries a status of
    the enumeration. *)
Definition records_known (r : redis) (owners : gmap string string) : Prop :=
  ∀ t, hgetall r (_task_key t) ≠ ∅ →
    is_Some (owners !! t) ∧
    ∃ s, valid_status s ∧ hgetall r (_task_key t) !! "status" = Some s.

Section Runs.

Variable fromtimestamp_strftime : Z → result string.
Variable dateparser_parse : string → option Z.

Definition step (r : redis) (o : op) : redis :=
  match o with
  | Create uuid4 now user_id description status due_time =>
      (TaskStore.create_task r uuid4 now user_id description status due_time).1
  | Update user_id task_id updates =>
      state_after r (TaskStore.update_task dateparser_parse r user_id task_id updates)
  | Delete user_id task_id =>
      state_after r (TaskStore.delete_task fromtimestamp_strftime r user_id task_id)
  end.

(** The store after a sequence of calls on an empty server. *)
Definition run (ops : list op) : redis := foldl step empty_redis ops.

(** Every call of the sequence is admissible where it is made. *)
Fixpoint admissible_from (r : redis) (own : gmap string string) (ops : list op) : Prop :=
  match ops with
  | [] => True
  | o :: ops' => admissible r own o ∧ admissible_from (step r o) (owners_step own o) ops'
  end.

Definition admissible_run (ops : list op) : Prop := admissible_from empty_redis ∅ ops.

(** The answer is what [get_task] gives for each id of a set of ids that
    [P] describes, each id once. *)
Definition returns_tasks (res : result (list (option (gmap string pyval))))
    (r : redis) (P : string → Prop) : Prop :=
  ∃ ids : gset string,
    res = mapM (TaskStore.get_task fromtimestamp_strftime r) (elements ids) ∧ ∀ t, t ∈ ids ↔ P t.

End Runs.

(** The invariant carried along a run. *)
Definition consistent (r : redis) (own : gmap string string) : Prop :=
  status_index_agrees r own ∧ records_known r own.

(** ** Queries *)

(** The bounds [get_tasks_by_filters] hands to ZRANGEBYSCORE. *)
Definition min_arg (start : option Z) : bound :=
  match start with
  | Some z => if decide (0 < String.length (str_Z z))%nat then Score z else NegInf
  | None => NegInf
  end.

Definition max_arg (end_ : option Z) : bound :=
  match end_ with
  | Some z => if decide (0 < String.length (str_Z z))%nat then Score z else PosInf
  | None => PosInf
  end.

(** The ids of the time filter, read off the due index. *)
Definition scored_within (r : redis) (user_id : string) (start end_ : option Z)
    (t : string) : Prop :=
  ∃ d, zscore r (_due_key user_id) t = Some d ∧ within start end_ d.

(** The statuses GET /tasks hands to the store: those of the request, or
    the two of the enumeration when it names none. *)
Definition statuses_or_default (statuses : option (list string)) : list string :=
  match statuses with
  | Some ((_ :: _) as l) => l
  | _ => ["pending"; "completed"]
  end.

(** [task_id] is in the combined result of the filters: in one of the
    named buckets when statuses are given, in the score range when a time
    bound is given, in both when both are; in none when no filter is
    given. *)
Definition in_filter_result (r : redis) (user_id : string)
    (statuses : option (list string)) (start end_ : option Z)
    (task_id : string) : Prop :=
  match statuses with
  | Some ((_ :: _) as l) =>
      in_buckets r user_id l task_id ∧
      (start ≠ None ∨ end_ ≠ None → scored_within r user_id start end_ task_id)
  | _ =>
      (start ≠ None ∨ end_ ≠ None) ∧ scored_within r user_id start end_ task_id
  end.

(** ** The scenarios

    Run on an empty server with the UTC formatter and the epoch parser. *)

(** Scenario A's task: user "u1", description "buy milk", pending. *)
Definition milk (due_time : option Z) : redis :=
  (TaskStore.create_task empty_redis "t1" 7 "u1" "buy milk" "pending" due_time).1.

Definition milk_then_delete : list op :=
  [Create "t1" 7 "u1" "buy milk" "pending" (Some 0); Delete "u1" "t1"].

Definition milk_then_clear : list op :=
  [Create "t1" 7 "u1" "buy milk" "pending" (Some 0);
   Update "u1" "t1" {[ "due_time" := PNone ]}].

Definition milk_lifecycle : list op :=
  [Create "t1" 7 "u1" "buy milk" "pending" (Some 500);
   Update "u1" "t1" {[ "status" := PStr "completed" ]};
   Delete "u1" "t1"].

(** Scenario A's task after DELETE /tasks/t1: the handler deletes for the
    user "user-1", so the id stays in the indexes of "u1". *)
Definition milk_deleted_by_handler : redis :=
  (Main.delete_task strftime_utc (milk (Some 500)) "t1").1.

(** ** More of the vocabulary *)

(** The dict [get_task] returns for a record written by [create_task]. *)
Definition shown_task (task_id user_id description status : string) (now : Z)
    (due_time : pyval) : gmap string pyval :=
  {[ "id" := PStr task_id;
     "user_id" := PStr user_id;
     "description" := PStr description;
     "status" := PStr status;
     "due_time" := due_time;
     "created_at" := PStr (str_Z now) ]}.

(** What the loop of [update_task] stores for a value of a field other than
    [due_time]. *)
Definition stored_value (v : pyval) : string :=
  match v with
  | PNone => ""
  | _ => py_str v
  end.

(** The single creations a bulk creation amounts to, from the [i]-th task
    on. *)
Fixpoint creates (uuid4 : nat → string) (now : Z) (user_id : string) (i : nat)
    (tasks : list TaskStore.bulk_task) : list op :=
  match tasks with
  | [] => []
  | task :: rest =>
      Create (uuid4 i) now user_id (TaskStore.bulk_description task)
             (default "pending" (TaskStore.bulk_status task))
             (TaskStore.bulk_due_time task)
      :: creates uuid4 now user_id (S i) rest
  end.

(** Two answers with the same tasks, in whatever order; or two exceptions. *)
Definition same_answer {A} (a b : result (list A)) : Prop :=
  match a, b with
  | Ok la, Ok lb => la ≡ₚ lb
  | Raise _, Raise _ => True
  | _, _ => False
  end.

(** The due index and the records agree: a task id is in the due index of
    a user at a score exactly when that user owns the task and its record
    holds that due time. *)
Definition due_index_agrees (r : redis) (owners : gmap string string) : Prop :=
  ∀ t u d, zscore r (_due_key u) t = Some d
           ↔ owners !! t = Some u ∧
             hgetall r (_task_key t) !! "due_time" = Some (str_Z d).

(** Every record holds a due time as the store writes it, and none at
    epoch 0. *)
Definition dues_written (r : redis) : Prop :=
  ∀ t, hgetall r (_task_key t) ≠ ∅ →
    ∃ due, hgetall r (_task_key t) !! "due_time" = Some (encode_due due) ∧
           due ≠ Some 0.

(** A call that brings no due time of epoch 0: a creation is given none,
    and the due time of an update is not parsed to it. *)
Definition away_from_epoch0 (dateparser_parse : string → option Z) (o : op) : Prop :=
  match o with
  | Create _ _ _ _ _ due_time => due_time ≠ Some 0
  | Update _ _ updates =>
      ∀ s, updates !! "due_time" = Some (PStr s) → dateparser_parse s ≠ Some 0
  | Delete _ _ => True
  end.

(** The owners after one user created the tasks of these ids. *)
Definition created_by (user_id : string) (task_ids : list string)
    (owners : gmap string string) : gmap string string :=
  foldl (λ own task_id, <[task_id := user_id]> own) owners task_ids.

(** A task due in the year 10000, which no [datetime] shows. *)
Definition milk_year_10000 : redis := milk (Some 253402300800).

(** Scenario A's task, postponed and then deleted. *)
Definition milk_postponed : list op :=
  [Create "t1" 7 "u1" "buy milk" "pending" (Some 500);
   Update "u1" "t1" {[ "due_time" := PStr "900" ]};
   Delete "u1" "t1"].

(** A request body of PUT that sets the status to null. *)
Definition null_status : Main.TaskUpdate :=
  {| Main.description := None; Main.due_time := None;
     Main.status := Some None; Main.user_id := "u1" |}.

(** A request body of POST with two tasks, and the ids drawn for them. *)
Definition two_tasks (task_user_id : string) : list Main.TaskCreate :=
  [ {| Main.create_description := "buy milk"; Main.create_due_time := Some "500";
       Main.create_status := "pending"; Main.create_user_id := task_user_id |};
    {| Main.create_description := "pay rent"; Main.create_due_time := None;
       Main.create_status := "completed"; Main.create_user_id := task_user_id |} ].

Definition two_ids (i : nat) : string :=
  match i with
  | O => "t1"
  | _ => "t2"
  end.

(** * Properties *)

(** ** Decimal strings *)

Lemma to_int_nonzero (z : Z) : Z.to_int z ≠ Pos Nil ∧ Z.to_int z ≠ Neg Nil.
Proof.
  destruct z as [|p|p]; simpl; split; try discriminate;
    intros [= H]; by apply (DecimalPos.Unsigned.to_uint_nonnil p).
Qed.

Lemma py_int_str_Z (z : Z) : py_int (str_Z z) = Ok z.
Proof.
  unfold py_int, str_Z. destruct (to_int_nonzero z) as [H1 H2].
  rewrite NilZero.isi by assumption. by rewrite DecimalZ.of_to.
Qed.

#[global] Instance str_Z_inj : Inj (=) (=) str_Z.
Proof.
  intros x y H. assert (Ok x = Ok y) as [= ->]; [|done].
  by rewrite <-!py_int_str_Z, H.
Qed.

Lemma str_Z_nonempty (z : Z) : str_Z z ≠ "".
Proof.
  intros H. pose proof (py_int_str_Z z) as Hz. rewrite H in Hz. discriminate.
Qed.

Lemma str_Z_zero (z : Z) : str_Z z = "0" ↔ z = 0.
Proof.
  split; [|by intros ->]. intros H. by apply (inj str_Z).
Qed.

Lemma str_Z_length (z : Z) : (0 < String.length (str_Z z))%nat.
Proof.
  pose proof (str_Z_nonempty z). destruct (str_Z z); [done | simpl; lia].
Qed.

(** ** Key names: the three families never meet *)

Lemma list_ascii_app (a b : string) :
  list_ascii_of_string (a +:+ b)
  = (list_ascii_of_string a ++ list_ascii_of_string b)%list.
Proof.
  induction a as [|c a IH]; [done|].
  change (String c a +:+ b) with (String c (a +:+ b)). simpl. by rewrite IH.
Qed.

Lemma list_ascii_inj (a b : string) :
  list_ascii_of_string a = list_ascii_of_string b → a = b.
Proof.
  intros H. by rewrite <-(string_of_list_ascii_of_string a),
    <-(string_of_list_ascii_of_string b), H.
Qed.

Lemma string_app_inv_tail (a b c : string) : a +:+ c = b +:+ c → a = b.
Proof.
  intros H. apply list_ascii_inj. apply (f_equal list_ascii_of_string) in H.
  rewrite !list_ascii_app in H. by apply (inj (λ l, l ++ _)%list) in H.
Qed.

Lemma string_app_last_ne (a b c d : string) (x y : ascii) :
  x ≠ y → a +:+ c +:+ String x "" ≠ b +:+ d +:+ String y "".
Proof.
  intros Hxy H. apply (f_equal list_ascii_of_string) in H.
  rewrite !list_ascii_app in H. cbn in H.
  rewrite !(assoc_L (@app ascii)) in H.
  apply (f_equal (@rev ascii)) in H. rewrite !rev_unit in H. congruence.
Qed.

Lemma task_key_inj (a b : string) : _task_key a = _task_key b → a = b.
Proof. unfold _task_key. apply (inj (String.app _)). Qed.

Lemma task_key_not_status (t u s : string) : _task_key t ≠ _status_key u s.
Proof. unfold _task_key, _status_key. cbv [String.app]. discriminate. Qed.

Lemma task_key_not_due (t u : string) : _task_key t ≠ _due_key u.
Proof. unfold _task_key, _due_key. cbv [String.app]. discriminate. Qed.

Lemma status_key_inj (u u' s s' : string) :
  valid_status s → valid_status s' →
  _status_key u s = _status_key u' s' → u = u' ∧ s = s'.
Proof.
  unfold _status_key. intros Hs Hs' H. apply (inj (String.app _)) in H.
  destruct Hs as [-> | ->], Hs' as [-> | ->].
  - split; [|done]. by apply string_app_inv_tail in H.
  - exfalso. revert H.
    change (":status:" +:+ "pending") with (":status:pendin" +:+ String "g" "").
    change (":status:" +:+ "completed") with (":status:complete" +:+ String "d" "").
    by apply string_app_last_ne.
  - exfalso. revert H.
    change (":status:" +:+ "pending") with (":status:pendin" +:+ String "g" "").
    change (":status:" +:+ "completed") with (":status:complete" +:+ String "d" "").
    by apply string_app_last_ne.
  - split; [|done]. by apply string_app_inv_tail in H.
Qed.

Lemma status_key_not_due (u u' s : string) :
  valid_status s → _status_key u s ≠ _due_key u'.
Proof.
  unfold _status_key, _due_key. intros Hs H. apply (inj (String.app _)) in H.
  revert H. change (":due") with (":du" +:+ String "e" "").
  destruct Hs as [-> | ->].
  - change (":status:" +:+ "pending") with (":status:pendin" +:+ String "g" "").
    by apply string_app_last_ne.
  - change (":status:" +:+ "completed") with (":status:complete" +:+ String "d" "").
    by apply string_app_last_ne.
Qed.

(** ** The Redis commands *)

Lemma hgetall_hset (r : redis) (k k' : string) (m : gmap string string) :
  hgetall (hset r k m) k' = if decide (k = k') then m ∪ hgetall r k else hgetall r k'.
Proof.
  unfold hgetall at 1. simpl. case_decide; simplify_map_eq; done.
Qed.

Lemma hgetall_del (r : redis) (k k' : string) :
  hgetall (del r k) k' = if decide (k = k') then ∅ else hgetall r k'.
Proof. unfold hgetall. simpl. case_decide; simplify_map_eq; done. Qed.

Lemma smembers_sadd (r : redis) (k k' x : string) :
  smembers (sadd r k x) k'
  = if decide (k = k') then {[x]} ∪ smembers r k else smembers r k'.
Proof. unfold smembers at 1. simpl. case_decide; simplify_map_eq; done. Qed.

Lemma smembers_srem (r : redis) (k k' x : string) :
  smembers (srem r k x) k'
  = if decide (k = k') then smembers r k ∖ {[x]} else smembers r k'.
Proof.
  unfold smembers at 1. simpl.
  destruct (decide (smembers r k ∖ {[x]} = ∅)) as [He|He];
    case_decide; simplify_map_eq; done.
Qed.

Lemma smembers_del (r : redis) (k k' : string) :
  smembers (del r k) k' = if decide (k = k') then ∅ else smembers r k'.
Proof. unfold smembers. simpl. case_decide; simplify_map_eq; done. Qed.

Lemma zmembers_zadd (r : redis) (k k' x : string) (z : Z) :
  zmembers (zadd r k x z) k'
  = if decide (k = k') then <[x := z]> (zmembers r k) else zmembers r k'.
Proof. unfold zmembers at 1. simpl. case_decide; simplify_map_eq; done. Qed.

Lemma zmembers_zrem (r : redis) (k k' x : string) :
  zmembers (zrem r k x) k'
  = if decide (k = k') then delete x (zmembers r k) else zmembers r k'.
Proof.
  unfold zmembers at 1. simpl.
  destruct (decide (delete x (zmembers r k) = ∅)) as [He|He];
    case_decide; simplify_map_eq; done.
Qed.

Lemma zmembers_del (r : redis) (k k' : string) :
  zmembers (del r k) k' = if decide (k = k') then ∅ else zmembers r k'.
Proof. unfold zmembers. simpl. case_decide; simplify_map_eq; done. Qed.

(** Taking a member out of the due index and putting it back with the score
    it had leaves the server as it was. *)
Lemma zadd_zrem_id (r : redis) (k x : string) (d : Z) :
  zscore r k x = Some d → zadd (zrem r k x) k x d = r.
Proof.
  intros Hd. unfold zadd. rewrite zmembers_zrem, decide_True by done.
  unfold zscore in Hd. rewrite insert_delete_id by done.
  destruct r as [h s z]. unfold zrem, zmembers in *. simpl in *. f_equal.
  destruct (z !! k) as [m|] eqn:Hk; simpl in *; [|by rewrite lookup_empty in Hd].
  case_decide; [rewrite insert_delete_eq | rewrite insert_insert_eq];
    by apply insert_id.
Qed.

(** ** The update loop *)

Lemma apply_updates_lookup (task : gmap string string) (updates : gmap string pyval)
    (new_due_time : option Z) (k : string) :
  TaskStore.apply_updates task updates new_due_time !! k
  = match updates !! k with
    | Some v => Some (updated_field k v new_due_time)
    | None => task !! k
    end.
Proof.
  unfold TaskStore.apply_updates. revert k.
  apply (map_fold_weak_ind (λ (res : gmap string string) (m : gmap string pyval),
    ∀ k, res !! k = match m !! k with
                    | Some v => Some (updated_field k v new_due_time)
                    | None => task !! k
                    end)).
  - intros k. by rewrite lookup_empty.
  - intros i x m res Hi IH k. unfold updated_field in *.
    destruct (decide (i = k)) as [->|Hne].
    + rewrite lookup_insert_eq. case_decide; by rewrite lookup_insert_eq.
    + rewrite (lookup_insert_ne m) by done. rewrite <-IH.
      case_decide; by rewrite lookup_insert_ne.
Qed.

Lemma apply_updates_untouched (task : gmap string string) (updates : gmap string pyval)
    (new_due_time : option Z) (k : string) :
  updates !! k = None →
  TaskStore.apply_updates task updates new_due_time !! k = task !! k.
Proof. intros H. by rewrite apply_updates_lookup, H. Qed.

(** The loop only adds or overwrites fields, so writing its result back
    with HSET stores exactly that dict. *)
Lemma apply_updates_union (task : gmap string string) (updates : gmap string pyval)
    (new_due_time : option Z) :
  TaskStore.apply_updates task updates new_due_time ∪ task
  = TaskStore.apply_updates task updates new_due_time.
Proof.
  apply map_eq. intros k. rewrite lookup_union, apply_updates_lookup.
  destruct (updates !! k); [by destruct (task !! k)|].
  by destruct (task !! k).
Qed.

Lemma apply_updates_nonempty (task : gmap string string) (updates : gmap string pyval)
    (new_due_time : option Z) :
  task ≠ ∅ → TaskStore.apply_updates task updates new_due_time ≠ ∅.
Proof.
  intros Hne He. apply Hne. apply map_empty. intros k.
  pose proof (apply_updates_lookup task updates new_due_time k) as Hk.
  rewrite He, lookup_empty in Hk. by destruct (updates !! k).
Qed.

Section Properties.

Variable fromtimestamp_strftime : Z → result string.
Variable dateparser_parse : string → option Z.

Abbreviation get_task := (TaskStore.get_task fromtimestamp_strftime).
Abbreviation update_task := (TaskStore.update_task dateparser_parse).
Abbreviation delete_task := (TaskStore.delete_task fromtimestamp_strftime).
Abbreviation get_tasks_by_filters := (TaskStore.get_tasks_by_filters fromtimestamp_strftime).
Abbreviation returns_tasks := (returns_tasks fromtimestamp_strftime).

Lemma due_time_field_encoded (task : gmap string string) (due : option Z) :
  task !! "due_time" = Some (encode_due due) →
  TaskStore.due_time_field task = Ok (read_due due).
Proof.
  intros H. unfold TaskStore.due_time_field. rewrite H.
  destruct due as [d|]; simpl; [|done].
  destruct (decide (d = 0)) as [->|Hd]; [done|].
  case_decide as H0; [|by rewrite py_int_str_Z].
  destruct H0 as [H0|H0]; [by apply str_Z_nonempty in H0 | by apply str_Z_zero in H0].
Qed.

Lemma update_task_found (r : redis) (user_id task_id status : string)
    (due : option Z) (updates : gmap string pyval) :
  holds_task r task_id status due →
  update_task r user_id task_id updates
  = let task := hgetall r (_task_key task_id) in
    let old_due_time := read_due due in
    try! new_due_time :=
      match updates !! "due_time" with
      | Some v =>
          if decide (TaskStore.keeps_due_time v) then Ok old_due_time
          else try! z := TaskStore.get_parsed_timestamp dateparser_parse v in Ok (Some z)
      | None => Ok old_due_time
      end in
    let r := hset r (_task_key task_id)
               (TaskStore.apply_updates task updates new_due_time) in
    let r := match updates !! "status" with
             | Some new_status =>
                 if decide (new_status ≠ PStr status)
                 then sadd (srem r (_status_key user_id status) task_id)
                           (_status_key user_id (py_str new_status)) task_id
                 else r
             | None => r
             end in
    let r := match updates !! "due_time" with
             | Some _ =>
                 let r := match old_due_time with
                          | Some d => if decide (d ≠ 0)
                                      then zrem r (_due_key user_id) task_id
                                      else r
                          | None => r
                          end in
                 match new_due_time with
                 | Some d => zadd r (_due_key user_id) task_id d
                 | None => r
                 end
             | None => r
             end in
    Ok (r, true).
Proof.
  intros [Hs Hd]. unfold TaskStore.update_task.
  rewrite decide_False by (intros He; by rewrite He, lookup_empty in Hs).
  rewrite Hs, (due_time_field_encoded _ due Hd). done.
Qed.

(** C8. A task id that does not exist is an ordinary outcome:
    [update_task] and [delete_task] return false, raise nothing and leave
    the server as it is, and [get_task] returns [None]. *)
Theorem not_found_is_a_result (r : redis) (user_id task_id : string)
    (updates : gmap string pyval) :
  hgetall r (_task_key task_id) = ∅ →
  update_task r user_id task_id updates = Ok (r, false) ∧
  delete_task r user_id task_id = Ok (r, false) ∧
  get_task r task_id = Ok None.
Proof.
  intros H. unfold TaskStore.update_task, TaskStore.delete_task, TaskStore.get_task.
  rewrite !decide_True by done. done.
Qed.

(** C9. Updating the status of an existing task to the status it has
    returns true and leaves the status index and the due index exactly
    as they were. *)
Theorem update_same_status_keeps_indexes (r : redis) (user_id task_id status : string)
    (due : option Z) (updates : gmap string pyval) :
  holds_task r task_id status due →
  updates !! "status" = Some (PStr status) →
  updates !! "due_time" = None →
  ∃ r', update_task r user_id task_id updates = Ok (r', true) ∧
        sets r' = sets r ∧ zsets r' = zsets r.
Proof.
  intros Ht Hs Hd. rewrite (update_task_found _ _ _ _ _ _ Ht). simpl.
  rewrite Hs, Hd. simpl. rewrite decide_False by (intros H; by apply H).
  eexists. split; [reflexivity|]. done.
Qed.

(** [update_task] leaves a field of the record alone when the update does
    not name it. *)
Lemma update_task_untouched_field (r : redis) (user_id task_id : string)
    (updates : gmap string pyval) (field : string) :
  updates !! field = None →
  hgetall (state_after r (update_task r user_id task_id updates)) (_task_key task_id)
    !! field
  = hgetall r (_task_key task_id) !! field.
Proof.
  intros Hf. unfold TaskStore.update_task.
  case_decide as Hne; [done|].
  destruct (hgetall r (_task_key task_id) !! "status") as [old|]; [|done]. simpl.
  destruct (TaskStore.due_time_field _) as [old_due|]; [|done]. simpl.
  match goal with
  | |- context [bind ?m _] => destruct m as [new_due|]; [|done]
  end. simpl.
  match goal with
  | |- hgetall ?r2 _ !! _ = _ =>
      assert (hashes r2 = hashes (hset r (_task_key task_id)
        (TaskStore.apply_updates (hgetall r (_task_key task_id)) updates new_due)))
        as Hh
  end.
  { repeat (case_match; simpl); try done; repeat case_decide; done. }
  unfold hgetall at 1. rewrite Hh. fold (hgetall (hset r (_task_key task_id)
    (TaskStore.apply_updates (hgetall r (_task_key task_id)) updates new_due))
    (_task_key task_id)).
  rewrite hgetall_hset, decide_True, apply_updates_union by done.
  by apply apply_updates_untouched.
Qed.

(** What the PUT handler hands to the store carries the three optional
    fields of the payload at most. *)
Lemma model_dump_user_id (payload : Main.TaskUpdate) :
  Main.model_dump payload !! "user_id" = Some (PStr (Main.user_id payload)).
Proof.
  destruct payload as [[[d|]|] [[du|]|] [[st|]|] u];
    unfold Main.model_dump, Main.dump_field; simpl; by simplify_map_eq.
Qed.

Lemma model_dump_identity (payload : Main.TaskUpdate) (field : string) :
  field ∈ ["id"; "user_id"; "created_at"] →
  delete "user_id" (Main.model_dump payload) !! field = None.
Proof.
  intros Hf. repeat (apply elem_of_cons in Hf as [->|Hf]);
    [..|by apply elem_of_nil in Hf];
    destruct payload as [[[d|]|] [[du|]|] [[st|]|] u];
    unfold Main.model_dump, Main.dump_field; simpl; by simplify_map_eq.
Qed.

(** C7, as the code has it. [update_task] leaves [id], [user_id] and
    [created_at] of the record as they were whenever the update does not
    name that field, and the PUT handler, whatever its payload, never
    passes one of the three. *)
Theorem update_keeps_identity (r : redis) (task_id field : string) :
  field ∈ ["id"; "user_id"; "created_at"] →
  (∀ user_id updates,
      updates !! field = None →
      hgetall (state_after r (update_task r user_id task_id updates))
        (_task_key task_id) !! field
      = hgetall r (_task_key task_id) !! field) ∧
  (∀ payload,
      hgetall (Main.update_task dateparser_parse r task_id payload).1
        (_task_key task_id) !! field
      = hgetall r (_task_key task_id) !! field).
Proof.
  intros Hfield. split.
  - intros user_id updates. apply update_task_untouched_field.
  - intros payload. unfold Main.update_task. rewrite model_dump_user_id.
    case_decide; [done|].
    match goal with
    | |- context [TaskStore.update_task _ r ?u task_id ?d] =>
        rewrite <-(update_task_untouched_field r u task_id d field)
          by (by apply model_dump_identity);
        by destruct (TaskStore.update_task dateparser_parse r u task_id d)
          as [[r' [|]]|]
    end.
Qed.

Lemma read_due_nonzero (due : option Z) : due ≠ Some 0 → read_due due = due.
Proof.
  destruct due as [d|]; [|done]. intros H. simpl.
  case_decide; [subst; done | done].
Qed.

(** C10, as the code has it. For an existing task whose due time is absent
    or is not epoch 0, an update that carries [due_time] as [None], [""] or
    ["None"] returns true and keeps the stored [due_time] field; a present
    due time is (again) in the due index of the calling user at that very
    score, and where the index entry agreed with the record before, the
    due index is left exactly as it was. *)
Theorem update_due_sentinel_keeps_due (r : redis) (user_id task_id status : string)
    (due : option Z) (updates : gmap string pyval) (v : pyval) :
  holds_task r task_id status due →
  due ≠ Some 0 →
  updates !! "due_time" = Some v →
  TaskStore.keeps_due_time v →
  ∃ r', update_task r user_id task_id updates = Ok (r', true) ∧
        hgetall r' (_task_key task_id) !! "due_time" = Some (encode_due due) ∧
        (∀ d, due = Some d → zscore r' (_due_key user_id) task_id = Some d) ∧
        (zscore r (_due_key user_id) task_id = due → zsets r' = zsets r).
Proof.
  intros Ht Hdue Hv Hkeep. rewrite (update_task_found _ _ _ _ _ _ Ht).
  rewrite (read_due_nonzero _ Hdue). simpl. rewrite Hv.
  rewrite decide_True by done. simpl.
  set (task' := TaskStore.apply_updates _ _ _).
  set (r1 := hset r (_task_key task_id) task').
  set (r2 := match updates !! "status" with Some _ => _ | None => _ end).
  assert (hashes r2 = hashes r1 ∧ zsets r2 = zsets r) as [Hh Hz].
  { subst r2. destruct (updates !! "status"); [case_decide|]; done. }
  assert (hgetall r1 (_task_key task_id) !! "due_time" = Some (encode_due due)) as Hf.
  { subst r1. rewrite hgetall_hset, decide_True by done. subst task'.
    rewrite apply_updates_union, apply_updates_lookup, Hv. done. }
  eexists. split; [reflexivity|].
  destruct due as [d|]; simpl.
  - assert (d ≠ 0) by congruence. rewrite decide_True by done.
    split; [|split].
    + unfold hgetall. simpl. rewrite Hh. exact Hf.
    + intros ? [= <-]. unfold zscore.
      rewrite zmembers_zadd, decide_True by done. by rewrite lookup_insert_eq.
    + intros Hsc. rewrite <-Hz.
      refine (f_equal zsets (zadd_zrem_id r2 _ _ d _)).
      unfold zscore, zmembers. by rewrite Hz.
  - split; [|split]; [|done|done].
    unfold hgetall. rewrite Hh. exact Hf.
Qed.

(** *** Queries *)

Lemma elem_of_zrangebyscore (r : redis) (k : string) (lo hi : bound) (t : string) :
  t ∈ zrangebyscore r k lo hi ↔ ∃ d, zscore r k t = Some d ∧ in_range lo hi d = true.
Proof.
  unfold zrangebyscore, zscore. rewrite list_elem_of_fmap. split.
  - intros [[t' d] [-> H]]. apply elem_of_map_to_list in H.
    apply map_lookup_filter_Some in H as [H1 H2]. eauto.
  - intros (d & H1 & H2). exists (t, d). split; [done|].
    apply elem_of_map_to_list. by apply map_lookup_filter_Some.
Qed.

Lemma in_range_within (start end_ : option Z) (d : Z) :
  in_range (min_arg start) (max_arg end_) d = true ↔ within start end_ d.
Proof.
  unfold in_range, within, min_arg, max_arg. rewrite andb_true_iff.
  destruct start as [s|], end_ as [e|];
    rewrite ?decide_True by apply str_Z_length; simpl;
    rewrite ?Z.leb_le; split.
  all: try (intros [H1 H2]; split; intros ? [= <-]; done).
  all: try (intros [H1 H2]; split; eauto; done).
  all: try (intros [H1 H2]; split; [|done]; intros ? [= <-]; done).
  all: try (intros [H1 H2]; split; [done|]; intros ? [= <-]; done).
Qed.

Lemma elem_of_buckets (r : redis) (user_id : string) (l : list string) (t : string) :
  t ∈ ⋃ ((λ s, smembers r (_status_key user_id s)) <$> l) ↔ in_buckets r user_id l t.
Proof.
  rewrite elem_of_union_list. unfold in_buckets. split.
  - intros (X & HX & Ht). apply list_elem_of_fmap in HX as (s & -> & Hs). eauto.
  - intros (s & Hs & Ht). eexists. split; [|exact Ht].
    apply list_elem_of_fmap. eauto.
Qed.

Lemma mapM_or_empty (r : redis) (ids : gset string) :
  (if decide (ids = ∅) then Ok [] else mapM (get_task r) (elements ids))
  = mapM (get_task r) (elements ids).
Proof. case_decide as H; [|done]. by rewrite H, elements_empty. Qed.

Lemma elem_of_time_ids (r : redis) (user_id : string) (start end_ : option Z)
    (t : string) :
  t ∈ (list_to_set (zrangebyscore r (_due_key user_id) (min_arg start) (max_arg end_))
         : gset string)
  ↔ scored_within r user_id start end_ t.
Proof.
  rewrite elem_of_list_to_set, elem_of_zrangebyscore. unfold scored_within.
  by setoid_rewrite in_range_within.
Qed.

(** The four cases of the filter policy, the time filter read off the due
    index as the code does. *)
Lemma filters_on_indexes (r : redis) (user_id : string) (start end_ : option Z) :
  (∀ statuses, no_statuses statuses →
     get_tasks_by_filters r user_id statuses None None = Ok []) ∧
  (∀ l, l ≠ [] →
     returns_tasks (get_tasks_by_filters r user_id (Some l) None None) r
       (in_buckets r user_id l)) ∧
  (∀ statuses, no_statuses statuses → start ≠ None ∨ end_ ≠ None →
     returns_tasks (get_tasks_by_filters r user_id statuses start end_) r
       (scored_within r user_id start end_)) ∧
  (∀ l, l ≠ [] → start ≠ None ∨ end_ ≠ None →
     returns_tasks (get_tasks_by_filters r user_id (Some l) start end_) r
       (λ t, in_buckets r user_id l t ∧ scored_within r user_id start end_ t)).
Proof.
  unfold TaskStore.get_tasks_by_filters. fold (min_arg start) (max_arg end_).
  split; [|split; [|split]].
  - intros statuses [-> | ->]; by rewrite decide_False by (intros [?|?]; done).
  - intros [|s l] Hl; [done|]. rewrite decide_False by (intros [?|?]; done).
    rewrite mapM_or_empty. eexists. split; [done|].
    intros t. apply elem_of_buckets.
  - intros statuses Hs Hb. rewrite decide_True by done.
    destruct Hs as [-> | ->]; rewrite mapM_or_empty;
      (eexists; split; [done|]); intros t; apply elem_of_time_ids.
  - intros [|s l] Hl Hb; [done|]. rewrite decide_True by done.
    rewrite mapM_or_empty. eexists. split; [done|].
    intros t. by rewrite elem_of_intersection, elem_of_buckets, elem_of_time_ids.
Qed.

(** C3, as the code has it. The filter policy of [get_tasks_by_filters]:
    no filter gives the empty list; statuses alone give the tasks of the
    union of the named buckets; a time bound alone gives the tasks whose
    score in the due index of the user lies in the closed range, a missing
    bound being open; both give the intersection.  On a store whose due
    index holds the due times of the user's records, the ids of the time
    filter are those of the user's tasks whose due time lies in the
    range. *)
Theorem filter_policy (r : redis) (user_id : string) (start end_ : option Z) :
  (∀ statuses, no_statuses statuses →
     get_tasks_by_filters r user_id statuses None None = Ok []) ∧
  (∀ l, l ≠ [] →
     returns_tasks (get_tasks_by_filters r user_id (Some l) None None) r
       (in_buckets r user_id l)) ∧
  (∀ statuses, no_statuses statuses → start ≠ None ∨ end_ ≠ None →
     returns_tasks (get_tasks_by_filters r user_id statuses start end_) r
       (scored_within r user_id start end_)) ∧
  (∀ l, l ≠ [] → start ≠ None ∨ end_ ≠ None →
     returns_tasks (get_tasks_by_filters r user_id (Some l) start end_) r
       (λ t, in_buckets r user_id l t ∧ scored_within r user_id start end_ t)) ∧
  (due_index_matches r user_id →
     ∀ t, scored_within r user_id start end_ t ↔ due_within r user_id start end_ t).
Proof.
  destruct (filters_on_indexes r user_id start end_)
    as (H1 & H2 & H3 & H4).
  split; [done|]. split; [done|]. split; [done|]. split; [done|].
  intros Hidx t. unfold scored_within, due_within. split.
  - intros (d & Hd & Hw). apply Hidx in Hd as [? ?]. eauto.
  - intros (d & Hu & Hd & Hw). exists d. split; [|done]. by apply Hidx.
Qed.

(** *** What a call does to the records and to the status buckets *)

Lemma smembers_sets (r r' : redis) (k : string) :
  sets r' = sets r → smembers r' k = smembers r k.
Proof. unfold smembers. by intros ->. Qed.

Lemma hgetall_hashes (r r' : redis) (k : string) :
  hashes r' = hashes r → hgetall r' k = hgetall r k.
Proof. unfold hgetall. by intros ->. Qed.

Lemma update_task_Ok (r r' : redis) (user_id task_id : string)
    (updates : gmap string pyval) (b : bool) :
  update_task r user_id task_id updates = Ok (r', b) →
  (b = false ∧ r' = r ∧ hgetall r (_task_key task_id) = ∅) ∨
  (b = true ∧ ∃ old new_due,
     hgetall r (_task_key task_id) !! "status" = Some old ∧
     hashes r' = hashes (hset r (_task_key task_id)
       (TaskStore.apply_updates (hgetall r (_task_key task_id)) updates new_due)) ∧
     sets r' = sets (move_status r user_id task_id old (updates !! "status"))).
Proof.
  unfold TaskStore.update_task. case_decide as Hne; [intros ?; simplify_eq; by left|].
  destruct (hgetall r (_task_key task_id) !! "status") as [old|]; [|done]. simpl.
  destruct (TaskStore.due_time_field _) as [old_due|]; [|done]. simpl.
  match goal with
  | |- context [bind ?m _] => destruct m as [new_due|]; [|done]
  end. simpl. intros ?; simplify_eq. right. split; [done|].
  exists old, new_due. split; [done|]. unfold move_status.
  split;
    destruct (updates !! "status") as [ns|], (updates !! "due_time"),
      old_due as [d|], new_due; simpl; repeat case_decide; reflexivity.
Qed.

Lemma get_task_Ok (r : redis) (task_id : string) (x : option (gmap string pyval)) :
  get_task r task_id = Ok x →
  (x = None ∧ hgetall r (_task_key task_id) = ∅) ∨
  (hgetall r (_task_key task_id) ≠ ∅ ∧
     ∃ shown, x = Some (<["due_time" := shown]> (PStr <$> hgetall r (_task_key task_id)))).
Proof.
  unfold TaskStore.get_task.
  case_decide as Hne; [intros ?; simplify_eq; by left|].
  destruct (TaskStore.due_time_field _) as [[d|]|]; simpl; [| |done].
  - destruct (fromtimestamp_strftime d); simpl; [|done].
    intros ?; simplify_eq. right. eauto.
  - intros ?; simplify_eq. right. eauto.
Qed.

Lemma delete_task_Ok (r r' : redis) (user_id task_id : string) (b : bool) :
  delete_task r user_id task_id = Ok (r', b) →
  (b = false ∧ r' = r ∧ hgetall r (_task_key task_id) = ∅) ∨
  (b = true ∧ hgetall r (_task_key task_id) ≠ ∅ ∧
     hashes r' = delete (_task_key task_id) (hashes r) ∧
     sets r' = delete (_task_key task_id)
       (sets (drop_status r user_id task_id
                (hgetall r (_task_key task_id) !! "status")))).
Proof.
  unfold TaskStore.delete_task.
  destruct (get_task r task_id) as [x|] eqn:Hget; [|done]. simpl.
  apply get_task_Ok in Hget as [[-> He]|[Hne [shown ->]]].
  { intros ?; simplify_eq. by left. }
  intros ?; simplify_eq. right. split; [done|]. split; [done|].
  rewrite (lookup_insert_ne _ "due_time" "status"), lookup_fmap by done.
  unfold drop_status.
  destruct (hgetall r (_task_key task_id) !! "status") as [st|]; simpl.
  - destruct (decide (st = "" ∨ st = "0")) as [Hst|Hst].
    + rewrite decide_True by (destruct Hst as [-> | ->]; auto).
      split; by destruct (truthy _).
    + rewrite decide_False by (intros [?|[?|?]]; simplify_eq; tauto).
      split; by destruct (truthy _).
  - split; by destruct (truthy _).
Qed.

Lemma create_task_hashes (r : redis) (uuid4 : string) (now : Z)
    (user_id description status : string) (due_time : option Z) :
  hashes (TaskStore.create_task r uuid4 now user_id description status due_time).1
  = hashes (hset r (_task_key uuid4)
      {[ "id" := uuid4; "user_id" := user_id; "description" := description;
         "status" := status; "due_time" := encode_due due_time;
         "created_at" := str_Z now ]}).
Proof. unfold TaskStore.create_task. by destruct due_time. Qed.

Lemma create_task_other (r : redis) (uuid4 : string) (now : Z)
    (user_id description status : string) (due_time : option Z) (t : string) :
  t ≠ uuid4 →
  hgetall (TaskStore.create_task r uuid4 now user_id description status due_time).1
    (_task_key t)
  = hgetall r (_task_key t).
Proof.
  intros Hne. rewrite (hgetall_hashes _ _ _ (create_task_hashes _ _ _ _ _ _ _)).
  rewrite hgetall_hset, decide_False; [done|].
  intros H. by apply task_key_inj in H.
Qed.

Lemma create_task_status (r : redis) (uuid4 : string) (now : Z)
    (user_id description status : string) (due_time : option Z) :
  hgetall (TaskStore.create_task r uuid4 now user_id description status due_time).1
    (_task_key uuid4) !! "status"
  = Some status.
Proof.
  rewrite (hgetall_hashes _ _ _ (create_task_hashes _ _ _ _ _ _ _)).
  rewrite hgetall_hset, decide_True by done.
  apply lookup_union_Some_l. by simplify_map_eq.
Qed.

Lemma create_task_sets (r : redis) (uuid4 : string) (now : Z)
    (user_id description status : string) (due_time : option Z) (k : string) :
  smembers (TaskStore.create_task r uuid4 now user_id description status due_time).1 k
  = if decide (_status_key user_id status = k)
    then {[uuid4]} ∪ smembers r k else smembers r k.
Proof.
  unfold TaskStore.create_task. simpl.
  match goal with
  | |- smembers ?r2 _ = _ =>
      assert (sets r2 = sets (sadd r (_status_key user_id status) uuid4)) as Hh
        by (by destruct due_time)
  end.
  rewrite (smembers_sets _ _ _ Hh), smembers_sadd. by case_decide; subst.
Qed.

(** *** The status index along a run *)

Abbreviation step := (step fromtimestamp_strftime dateparser_parse).
Abbreviation run := (run fromtimestamp_strftime dateparser_parse).
Abbreviation admissible_from :=
  (admissible_from fromtimestamp_strftime dateparser_parse).
Abbreviation admissible_run := (admissible_run fromtimestamp_strftime dateparser_parse).

Lemma consistent_empty : consistent empty_redis ∅.
Proof.
  split.
  - intros t u s _. unfold smembers, hgetall. simpl.
    rewrite !lookup_empty. simpl. rewrite lookup_empty.
    split; [by intros ?%elem_of_empty | by intros [? _]].
  - intros t H. exfalso. apply H. unfold hgetall. simpl. by rewrite lookup_empty.
Qed.

Lemma consistent_create (r : redis) (own : gmap string string) (uuid4 : string)
    (now : Z) (user_id description status : string) (due_time : option Z) :
  consistent r own →
  admissible r own (Create uuid4 now user_id description status due_time) →
  consistent (step r (Create uuid4 now user_id description status due_time))
             (<[uuid4 := user_id]> own).
Proof.
  intros [Hidx Hrec] [Hnew Hst].
  change (step r (Create uuid4 now user_id description status due_time))
    with (TaskStore.create_task r uuid4 now user_id description status due_time).1.
  split.
  - intros t u s Hs. rewrite create_task_sets.
    pose proof (Hidx t u s Hs) as Hold.
    destruct (decide (t = uuid4)) as [->|Hne].
    + rewrite lookup_insert_eq, create_task_status. case_decide as Hk.
      * apply status_key_inj in Hk as [-> ->]; [|done..].
        split; [done|]. intros _. apply elem_of_union_l. by apply elem_of_singleton.
      * split.
        -- intros Hin. apply Hold in Hin as [Ho _]. congruence.
        -- intros [? ?]. by simplify_eq.
    + rewrite lookup_insert_ne, create_task_other by done. rewrite <-Hold.
      case_decide; [|done]. rewrite elem_of_union, elem_of_singleton. tauto.
  - intros t Ht. destruct (decide (t = uuid4)) as [->|Hne].
    + rewrite lookup_insert_eq, create_task_status. eauto.
    + rewrite lookup_insert_ne by done. rewrite create_task_other in * by done.
      by apply Hrec.
Qed.

Lemma valid_status_not_sentinel (s : string) :
  valid_status s → ¬ (s = "" ∨ s = "0").
Proof. intros [-> | ->] [?|?]; done. Qed.

Lemma consistent_update (r : redis) (own : gmap string string)
    (user_id task_id : string) (updates : gmap string pyval) :
  consistent r own →
  admissible r own (Update user_id task_id updates) →
  consistent (step r (Update user_id task_id updates)) own.
Proof.
  intros [Hidx Hrec] [Hown Hst].
  change (step r (Update user_id task_id updates))
    with (state_after r (update_task r user_id task_id updates)).
  destruct (update_task r user_id task_id updates) as [[r' b]|e] eqn:Hup;
    simpl; [|done].
  apply update_task_Ok in Hup
    as [(-> & -> & _)|(-> & old & nd & Hold & Hh & Hs)]; [done|].
  assert (hgetall r (_task_key task_id) ≠ ∅) as Hne
    by (intros He; by rewrite He, lookup_empty in Hold).
  specialize (Hown Hne).
  destruct (Hrec task_id Hne) as [_ (s0 & Hvold & Hl0)].
  rewrite Hold in Hl0. injection Hl0 as <-.
  (* the status the record has after the call *)
  assert (∃ new, valid_status new ∧
            hgetall r' (_task_key task_id) !! "status" = Some new ∧
            ∀ k, smembers r' k
                 = if decide (new = old) then smembers r k
                   else smembers (sadd (srem r (_status_key user_id old) task_id)
                                       (_status_key user_id new) task_id) k)
    as (new & Hvnew & Hnew & Hsets).
  { assert (∀ f, hgetall r' (_task_key task_id) !! f
                 = TaskStore.apply_updates (hgetall r (_task_key task_id))
                     updates nd !! f) as Hf.
    { intros f. rewrite (hgetall_hashes _ _ _ Hh), hgetall_hset.
      by rewrite decide_True, apply_updates_union by done. }
    rewrite Hf, apply_updates_lookup.
    destruct (updates !! "status") as [v|] eqn:Hv.
    - destruct (Hst v eq_refl) as (sn & -> & Hsn). exists sn.
      split; [done|]. split; [done|]. intros k.
      rewrite (smembers_sets _ _ _ Hs). unfold move_status.
      destruct (decide (sn = old)) as [->|Hdiff].
      + by rewrite decide_False by (intros H; by apply H).
      + by rewrite decide_True by congruence.
    - exists old. split; [done|]. split; [done|]. intros k.
      rewrite (smembers_sets _ _ _ Hs). simpl. by rewrite decide_True. }
  assert (∀ t, t ≠ task_id →
            hgetall r' (_task_key t) = hgetall r (_task_key t)) as Hother.
  { intros t Ht. rewrite (hgetall_hashes _ _ _ Hh), hgetall_hset.
    rewrite decide_False; [done|]. intros H. by apply task_key_inj in H. }
  split.
  - intros t u s Hvs. rewrite Hsets. pose proof (Hidx t u s Hvs) as Hold_t.
    destruct (decide (t = task_id)) as [->|Ht].
    + rewrite Hnew. destruct (decide (new = old)) as [->|Hdiff].
      { by rewrite Hold_t, Hold. }
      rewrite smembers_sadd, !smembers_srem.
      destruct (decide (_status_key user_id new = _status_key u s)) as [Hk|Hk].
      * apply status_key_inj in Hk as [-> ->]; [|done..].
        split; [done|]. intros _. apply elem_of_union_l. by apply elem_of_singleton.
      * split; [|intros [Hu Hsx]; exfalso; apply Hk; congruence].
        destruct (decide (_status_key user_id old = _status_key u s)) as [Hk'|Hk'].
        -- intros [_ Hn]%elem_of_difference. exfalso. apply Hn.
           by apply elem_of_singleton.
        -- intros Hin. apply Hold_t in Hin as [Hu Hsx]. exfalso. apply Hk'.
           rewrite Hold in Hsx. congruence.
    + rewrite (Hother t Ht). rewrite <-Hold_t.
      destruct (decide (new = old)) as [|Hdiff]; [done|].
      rewrite smembers_sadd, !smembers_srem. clear -Ht.
      assert (∀ X : gset string, t ∈ X ∖ {[task_id]} ↔ t ∈ X) as Hrm.
      { intros X. rewrite elem_of_difference, elem_of_singleton. tauto. }
      assert (∀ X : gset string, t ∈ {[task_id]} ∪ X ↔ t ∈ X) as Hadd.
      { intros X. rewrite elem_of_union, elem_of_singleton. tauto. }
      repeat case_decide; rewrite ?Hadd, ?Hrm; try done;
        match goal with
        | |- _ ∈ smembers _ ?a ↔ _ ∈ smembers _ ?b => by replace a with b by congruence
        end.
  - intros t Hex. destruct (decide (t = task_id)) as [->|Ht].
    + split; [by eexists|]. eauto.
    + rewrite (Hother t Ht) in *. by apply Hrec.
Qed.

Lemma consistent_delete (r : redis) (own : gmap string string)
    (user_id task_id : string) :
  consistent r own →
  admissible r own (Delete user_id task_id) →
  consistent (step r (Delete user_id task_id)) own.
Proof.
  intros [Hidx Hrec] Hown.
  change (step r (Delete user_id task_id))
    with (state_after r (delete_task r user_id task_id)).
  destruct (delete_task r user_id task_id) as [[r' b]|e] eqn:Hdel;
    simpl; [|done].
  apply delete_task_Ok in Hdel
    as [(-> & -> & _)|(-> & Hne & Hh & Hs)]; [done|].
  simpl in Hown. specialize (Hown Hne).
  destruct (Hrec task_id Hne) as [_ (old & Hvold & Hold)].
  rewrite Hold in Hs. unfold drop_status in Hs.
  rewrite decide_False in Hs by (by apply valid_status_not_sentinel).
  assert (∀ t, hgetall r' (_task_key t)
               = if decide (t = task_id) then ∅ else hgetall r (_task_key t))
    as Hrecs.
  { intros t. unfold hgetall at 1. rewrite Hh.
    destruct (decide (t = task_id)) as [->|Ht].
    - by rewrite lookup_delete_eq.
    - rewrite lookup_delete_ne; [done|]. intros H. by apply task_key_inj in H. }
  assert (∀ u s, smembers r' (_status_key u s)
                 = smembers (srem r (_status_key user_id old) task_id)
                     (_status_key u s)) as Hsets.
  { intros u s. unfold smembers at 1. rewrite Hs.
    rewrite lookup_delete_ne by apply task_key_not_status. done. }
  split.
  - intros t u s Hvs. rewrite Hsets, Hrecs, smembers_srem.
    pose proof (Hidx t u s Hvs) as Hold_t.
    destruct (decide (t = task_id)) as [->|Ht].
    + rewrite lookup_empty. split; [|by intros [_ ?]].
      destruct (decide (_status_key user_id old = _status_key u s)) as [Hk|Hk].
      * intros [_ Hn]%elem_of_difference. exfalso. apply Hn.
        by apply elem_of_singleton.
      * intros Hin. apply Hold_t in Hin as [Hu Hsx]. exfalso. apply Hk.
        rewrite Hold in Hsx. congruence.
    + rewrite <-Hold_t. case_decide as Hk; [|done].
      rewrite Hk, elem_of_difference, elem_of_singleton. tauto.
  - intros t. rewrite Hrecs. case_decide; [done|]. apply Hrec.
Qed.

Lemma consistent_step (r : redis) (own : gmap string string) (o : op) :
  consistent r own → admissible r own o →
  consistent (step r o) (owners_step own o).
Proof.
  destruct o; simpl owners_step.
  - apply consistent_create.
  - apply consistent_update.
  - apply consistent_delete.
Qed.

Lemma consistent_from (ops : list op) (r : redis) (own : gmap string string) :
  consistent r own → admissible_from r own ops →
  consistent (foldl step r ops) (foldl owners_step own ops).
Proof.
  revert r own. induction ops as [|o ops IH]; intros r own Hc Ha; [done|].
  destruct Ha as [Ho Hrest]. simpl. apply IH; [|done]. by apply consistent_step.
Qed.

Lemma admissible_from_app (ops ops' : list op) (r : redis) (own : gmap string string) :
  admissible_from r own (ops ++ ops') → admissible_from r own ops.
Proof.
  revert r own. induction ops as [|o ops IH]; intros r own; [done|].
  simpl. intros [Ho Hrest]. split; [done|]. by apply IH.
Qed.

(** C1. Along every run of creations, updates and deletes in which each
    call on an existing task is made with its owning user and every
    status given is pending or completed, after each call a task id is
    in the status bucket of a user and a status exactly when that user
    owns the task and its record exists with that status; so it is in no
    other bucket. *)
Theorem status_index_consistent (ops : list op) (n : nat) :
  admissible_run ops →
  status_index_agrees (run (take n ops)) (owners (take n ops)).
Proof.
  intros Ha. apply (consistent_from (take n ops) empty_redis ∅).
  - apply consistent_empty.
  - apply (admissible_from_app _ (drop n ops)). by rewrite take_drop.
Qed.

(** *** Ids that resolve to no record *)

Lemma mapM_Ok_elem {A B} (f : A → result B) (l : list A) (ys : list B) (x : A) (y : B) :
  mapM f l = Ok ys → x ∈ l → f x = Ok y → y ∈ ys.
Proof.
  revert ys. induction l as [|a l IH]; intros ys Hm Hx Hf; [by inversion Hx|].
  simpl in Hm. destruct (f a) as [b|] eqn:Hfa; [|done]. simpl in Hm.
  destruct (mapM f l) as [bs|]; [|done]. simpl in Hm. injection Hm as <-.
  apply elem_of_cons in Hx as [->|Hx].
  - rewrite Hf in Hfa. injection Hfa as ->. by left.
  - right. by apply IH.
Qed.

Lemma mapM_Ok_all {A B} (f : A → result B) (l : list A) :
  (∀ x, x ∈ l → ∃ y, f x = Ok y) → ∃ ys, mapM f l = Ok ys.
Proof.
  induction l as [|a l IH]; intros H; [by exists []|].
  destruct (H a) as [b Hb]; [by left|].
  destruct IH as [bs Hbs]; [intros x Hx; apply H; by right|].
  exists (b :: bs). simpl. by rewrite Hb, Hbs.
Qed.

Lemma get_task_stale (r : redis) (t : string) :
  hgetall r (_task_key t) = ∅ → get_task r t = Ok None.
Proof. intros H. unfold TaskStore.get_task. by rewrite decide_True. Qed.

(** Whatever the filters, the list is read over the combined result. *)
Lemma filters_return_result (r : redis) (user_id : string)
    (statuses : option (list string)) (start end_ : option Z) :
  returns_tasks (get_tasks_by_filters r user_id statuses start end_) r
    (in_filter_result r user_id statuses start end_).
Proof.
  destruct (filters_on_indexes r user_id start end_)
    as (_ & _ & H3 & H4).
  destruct (filters_on_indexes r user_id None None)
    as (H1 & H2 & _ & _).
  destruct (decide (start ≠ None ∨ end_ ≠ None)) as [Hb|Hb].
  - destruct statuses as [[|s l]|].
    + destruct (H3 (Some []) (or_intror eq_refl) Hb) as (ids & Hr & Hi).
      exists ids. split; [done|]. intros t. rewrite Hi. simpl.
      split; [intros H; by split | by intros [_ H]].
    + destruct (H4 (s :: l) ltac:(done) Hb) as (ids & Hr & Hi).
      exists ids. split; [done|]. intros t. rewrite Hi. simpl.
      split; [intros [? ?]; by split | intros [? H]; split; [done | by apply H]].
    + destruct (H3 None (or_introl eq_refl) Hb) as (ids & Hr & Hi).
      exists ids. split; [done|]. intros t. rewrite Hi. simpl.
      split; [intros H; by split | by intros [_ H]].
  - assert (start = None ∧ end_ = None) as [-> ->].
    { destruct start, end_; try done; exfalso; apply Hb; first [by left | by right]. }
    destruct statuses as [[|s l]|].
    + rewrite (H1 (Some []) (or_intror eq_refl)). exists ∅. split; [done|].
      intros t. simpl. split; [by intros ?%elem_of_empty | by intros [[?|?] _]].
    + destruct (H2 (s :: l) ltac:(done)) as (ids & Hr & Hi).
      exists ids. split; [done|]. intros t. rewrite Hi. simpl.
      split; [intros H; split; [done | by intros [?|?]] | by intros [H _]].
    + rewrite (H1 None (or_introl eq_refl)). exists ∅. split; [done|].
      intros t. simpl. split; [by intros ?%elem_of_empty | by intros [[?|?] _]].
Qed.

(** C6, as the code has it. An id that resolves to no primary record
    raises nothing: [get_task] gives [None] for it, every list that
    [get_tasks_by_filters] returns for filters whose combined result holds
    the id has a [None] entry, and the call returns whenever the ids of
    the combined result that have a record can be read.  It is the GET
    /tasks handler that drops these entries: whenever it answers, its list
    is the list the store returns for the parsed bounds and the statuses
    of the request (the two of the enumeration when it names none),
    without the [None] entries, and so holds none. *)
Theorem stale_ids_dropped_by_handler (r : redis) (user_id t : string) :
  hgetall r (_task_key t) = ∅ →
  get_task r t = Ok None ∧
  (∀ statuses start end_ tasks,
      in_filter_result r user_id statuses start end_ t →
      get_tasks_by_filters r user_id statuses start end_ = Ok tasks →
      None ∈ tasks) ∧
  (∀ statuses start end_,
      (∀ t', in_filter_result r user_id statuses start end_ t' →
             hgetall r (_task_key t') ≠ ∅ → ∃ x, get_task r t' = Ok x) →
      ∃ tasks, get_tasks_by_filters r user_id statuses start end_ = Ok tasks) ∧
  (∀ statuses start_time end_time answer,
      Main.get_tasks fromtimestamp_strftime dateparser_parse r user_id statuses
        start_time end_time = Main.Respond answer →
      (None ∉ answer) ∧
      ∃ start end_ tasks,
        Main.parsed_or_none dateparser_parse start_time = Ok start ∧
        Main.parsed_or_none dateparser_parse end_time = Ok end_ ∧
        get_tasks_by_filters r user_id (Some (statuses_or_default statuses))
          start end_ = Ok tasks ∧
        answer = filter (λ task, task ≠ None) tasks ∧
        (in_filter_result r user_id (Some (statuses_or_default statuses))
           start end_ t → None ∈ tasks)).
Proof.
  intros Hstale.
  pose proof (get_task_stale r t Hstale) as Hget.
  assert (∀ statuses start end_ tasks,
            in_filter_result r user_id statuses start end_ t →
            get_tasks_by_filters r user_id statuses start end_ = Ok tasks →
            None ∈ tasks) as Hshown.
  { intros statuses start end_ tasks Hin Hq.
    destruct (filters_return_result r user_id statuses start end_)
      as (ids & Hr & Hi).
    rewrite Hr in Hq.
    apply (mapM_Ok_elem _ _ _ t None Hq); [|done].
    apply elem_of_elements. by apply Hi. }
  split; [done|]. split; [done|]. split.
  - intros statuses start end_ Hres.
    destruct (filters_return_result r user_id statuses start end_)
      as (ids & -> & Hi).
    apply mapM_Ok_all. intros t' Ht'.
    apply elem_of_elements, Hi in Ht'.
    destruct (decide (hgetall r (_task_key t') = ∅)) as [He|Hne].
    + exists None. by apply get_task_stale.
    + by apply Hres.
  - intros statuses start_time end_time answer Hans.
    unfold Main.get_tasks in Hans.
    destruct (Main.parsed_or_none dateparser_parse start_time) as [start|]; [|done].
    destruct (Main.parsed_or_none dateparser_parse end_time) as [end_|]; [|done].
    simpl in Hans.
    fold (statuses_or_default statuses) in Hans.
    destruct (get_tasks_by_filters r user_id (Some (statuses_or_default statuses))
                start end_) as [tasks|] eqn:Hq; [|done].
    simpl in Hans. injection Hans as <-. split.
    + intros Hin. apply list_elem_of_filter in Hin as [Hne _]. done.
    + exists start, end_, tasks. split; [done|]. split; [done|].
      split; [done|]. split; [done|]. intros Hin. by eapply Hshown.
Qed.

End Properties.

(** * Concrete runs

    The scenarios, evaluated with the UTC formatter and the epoch parser. *)

Lemma milk_then_delete_admissible : admissible_run strftime_utc parse_epoch milk_then_delete.
Proof.
  unfold admissible_run, milk_then_delete. simpl.
  split; [split; [done | by left]|]. split; [|done]. intros _. by vm_compute.
Qed.

Lemma milk_then_clear_admissible : admissible_run strftime_utc parse_epoch milk_then_clear.
Proof.
  unfold admissible_run, milk_then_clear. simpl.
  split; [split; [done | by left]|]. split; [|done]. split.
  - intros _. by vm_compute.
  - intros v Hv. vm_compute in Hv. discriminate.
Qed.

(** C2. A task created with due time 0 is in the due index at score 0, and
    stays there when the task is deleted, or when an update empties its
    [due_time] field: the due index holds an id whose record does not
    exist, or has no due time. *)
Theorem due_index_outlives_epoch0_task :
  admissible_run strftime_utc parse_epoch milk_then_delete ∧
  zscore (milk (Some 0)) (_due_key "u1") "t1" = Some 0 ∧
  hgetall (run strftime_utc parse_epoch milk_then_delete) (_task_key "t1") = ∅ ∧
  zscore (run strftime_utc parse_epoch milk_then_delete) (_due_key "u1") "t1" = Some 0 ∧
  admissible_run strftime_utc parse_epoch milk_then_clear ∧
  hgetall (run strftime_utc parse_epoch milk_then_clear) (_task_key "t1") !! "due_time"
    = Some "" ∧
  zscore (run strftime_utc parse_epoch milk_then_clear) (_due_key "u1") "t1" = Some 0.
Proof.
  split; [apply milk_then_delete_admissible|].
  split; [by vm_compute|]. split; [by vm_compute|]. split; [by vm_compute|].
  split; [apply milk_then_clear_admissible|].
  split; by vm_compute.
Qed.

(** C4. Deleting the task created with due time 0 returns true and removes
    the record and the status entry, but leaves the id in the due index; a
    second delete returns false and changes nothing. *)
Theorem delete_leaves_epoch0_due_entry :
  zscore (milk (Some 0)) (_due_key "u1") "t1" = Some 0 ∧
  ∃ r1, TaskStore.delete_task strftime_utc (milk (Some 0)) "u1" "t1" = Ok (r1, true) ∧
        hgetall r1 (_task_key "t1") = ∅ ∧
        smembers r1 (_status_key "u1" "pending") = ∅ ∧
        zscore r1 (_due_key "u1") "t1" = Some 0 ∧
        TaskStore.delete_task strftime_utc r1 "u1" "t1" = Ok (r1, false).
Proof.
  split; [by vm_compute|]. eexists. split; [by vm_compute|].
  repeat split; by vm_compute.
Qed.

(** C5, as the code has it. After creating the task with due time 500 and
    updating it with [due_time] null, the update returns true, the record
    keeps due time 500, the due index still holds the id at score 500 and
    the query for the range 0..1000 returns the task. *)
Theorem cleared_due_time_stays_indexed :
  ∃ r1, TaskStore.update_task parse_epoch (milk (Some 500)) "u1" "t1"
          {[ "due_time" := PNone ]} = Ok (r1, true) ∧
        hgetall r1 (_task_key "t1") !! "due_time" = Some "500" ∧
        zscore r1 (_due_key "u1") "t1" = Some 500 ∧
        TaskStore.get_tasks_by_filters strftime_utc r1 "u1" None (Some 0) (Some 1000)
        = Ok [Some {[ "id" := PStr "t1"; "user_id" := PStr "u1";
                      "description" := PStr "buy milk"; "status" := PStr "pending";
                      "due_time" := PStr "1970-01-01 00:08:20";
                      "created_at" := PStr "7" ]}].
Proof.
  eexists. split; [by vm_compute|]. repeat split; by vm_compute.
Qed.

(** C5 fails on the code: it is not so that the update with [due_time] null
    takes the id out of the due index and out of the range query. *)
Lemma due_time_not_cleared :
  ¬ (∀ r1, TaskStore.update_task parse_epoch (milk (Some 500)) "u1" "t1"
             {[ "due_time" := PNone ]} = Ok (r1, true) →
           zscore r1 (_due_key "u1") "t1" = None ∧
           TaskStore.get_tasks_by_filters strftime_utc r1 "u1" None (Some 0) (Some 1000)
           = Ok []).
Proof.
  intros H.
  destruct (TaskStore.update_task parse_epoch (milk (Some 500)) "u1" "t1"
              {[ "due_time" := PNone ]}) as [[r1 b]|] eqn:Hup;
    vm_compute in Hup; [|discriminate].
  injection Hup as <- <-. destruct (H _ eq_refl) as [Hz _].
  vm_compute in Hz. discriminate.
Qed.

(** C3 fails on the code where the due index and the records differ: after
    the creation with due time 0 and the update with [due_time] null, the
    query for the range 0..0 returns the task, whose record has no due
    time. *)
Lemma time_filter_reads_the_index :
  admissible_run strftime_utc parse_epoch milk_then_clear ∧
  hgetall (run strftime_utc parse_epoch milk_then_clear) (_task_key "t1") !! "due_time"
  = Some "" ∧
  TaskStore.get_tasks_by_filters strftime_utc
    (run strftime_utc parse_epoch milk_then_clear) "u1" None (Some 0) (Some 0)
  = Ok [Some {[ "id" := PStr "t1"; "user_id" := PStr "u1";
                "description" := PStr "buy milk"; "status" := PStr "pending";
                "due_time" := PNone; "created_at" := PStr "7" ]}] ∧
  ¬ due_within (run strftime_utc parse_epoch milk_then_clear) "u1" (Some 0) (Some 0) "t1".
Proof.
  split; [apply milk_then_clear_admissible|].
  split; [by vm_compute|]. split; [by vm_compute|].
  intros (d & _ & Hd & _).
  assert (hgetall (run strftime_utc parse_epoch milk_then_clear) (_task_key "t1")
            !! "due_time" = Some "") as Hrec by (by vm_compute).
  rewrite Hrec in Hd. injection Hd as Hd. symmetry in Hd.
  by apply str_Z_nonempty in Hd.
Qed.

(** C6 fails on the store: the id left in the due index by the deleted task
    of due time 0 comes back from [get_tasks_by_filters] as a [None] entry. *)
Lemma stale_id_shows_as_None :
  TaskStore.get_tasks_by_filters strftime_utc
    (run strftime_utc parse_epoch milk_then_delete) "u1" None (Some 0) None
  = Ok [None].
Proof. by vm_compute. Qed.

(** C7 fails on the store: an update that names [created_at] overwrites it. *)
Lemma update_overwrites_created_at :
  hgetall (milk (Some 500)) (_task_key "t1") !! "created_at" = Some "7" ∧
  ∃ r1, TaskStore.update_task parse_epoch (milk (Some 500)) "u1" "t1"
          {[ "created_at" := PStr "0" ]} = Ok (r1, true) ∧
        hgetall r1 (_task_key "t1") !! "created_at" = Some "0".
Proof.
  split; [by vm_compute|]. eexists. split; by vm_compute.
Qed.

(** C10 fails at epoch 0: the update with [due_time] null turns the stored
    due time "0" into the empty string. *)
Lemma sentinel_update_clears_epoch0 :
  hgetall (milk (Some 0)) (_task_key "t1") !! "due_time" = Some "0" ∧
  ∃ r1, TaskStore.update_task parse_epoch (milk (Some 0)) "u1" "t1"
          {[ "due_time" := PNone ]} = Ok (r1, true) ∧
        hgetall r1 (_task_key "t1") !! "due_time" = Some "".
Proof.
  split; [by vm_compute|]. eexists. split; by vm_compute.
Qed.

(** ** The theorems at work on the scenarios *)

Lemma milk_holds : holds_task (milk (Some 500)) "t1" "pending" (Some 500).
Proof. split; by vm_compute. Qed.

Lemma milk_lifecycle_admissible : admissible_run strftime_utc parse_epoch milk_lifecycle.
Proof.
  unfold admissible_run, milk_lifecycle. simpl.
  split; [split; [done | by left]|]. split; [|split; [|done]].
  - split; [intros _; by vm_compute|].
    intros v Hv. vm_compute in Hv. injection Hv as <-.
    exists "completed". split; [done | by right].
  - intros _. by vm_compute.
Qed.

Lemma milk_due_index_matches : due_index_matches (milk (Some 500)) "u1".
Proof.
  intros t d. unfold zscore.
  assert (zmembers (milk (Some 500)) (_due_key "u1") = {[ "t1" := 500 ]}) as ->
    by (by vm_compute).
  rewrite lookup_singleton_Some.
  destruct (decide (t = "t1")) as [->|Ht].
  - assert (hgetall (milk (Some 500)) (_task_key "t1") !! "user_id" = Some "u1") as ->
      by (by vm_compute).
    assert (hgetall (milk (Some 500)) (_task_key "t1") !! "due_time"
            = Some (str_Z 500)) as -> by (by vm_compute).
    split.
    + intros [_ <-]. done.
    + intros [_ [= H]]. apply (inj str_Z) in H. done.
  - assert (hgetall (milk (Some 500)) (_task_key t) = ∅) as ->.
    { unfold hgetall, milk. simpl. rewrite lookup_insert_ne; [done|].
      intros H. by apply task_key_inj in H. }
    rewrite lookup_empty. split; [by intros [? _] | by intros [? _]].
Qed.

Lemma status_index_consistent_witness :
  admissible_run strftime_utc parse_epoch milk_lifecycle ∧
  status_index_agrees (run strftime_utc parse_epoch (take 2 milk_lifecycle))
                      (owners (take 2 milk_lifecycle)).
Proof.
  split; [apply milk_lifecycle_admissible|].
  apply (status_index_consistent strftime_utc parse_epoch milk_lifecycle 2).
  apply milk_lifecycle_admissible.
Defined.

Lemma filter_policy_witness :
  due_index_matches (milk (Some 500)) "u1" ∧
  returns_tasks strftime_utc
    (TaskStore.get_tasks_by_filters strftime_utc (milk (Some 500)) "u1"
       (Some ["pending"]) (Some 0) (Some 1000))
    (milk (Some 500))
    (λ t, in_buckets (milk (Some 500)) "u1" ["pending"] t ∧
          scored_within (milk (Some 500)) "u1" (Some 0) (Some 1000) t) ∧
  (∀ t, scored_within (milk (Some 500)) "u1" (Some 0) (Some 1000) t
        ↔ due_within (milk (Some 500)) "u1" (Some 0) (Some 1000) t).
Proof.
  split; [apply milk_due_index_matches|].
  destruct (filter_policy strftime_utc (milk (Some 500)) "u1" (Some 0) (Some 1000))
    as (_ & _ & _ & H4 & H5).
  split; [apply H4; [done | by left] | apply H5, milk_due_index_matches].
Defined.

Lemma milk_deleted_by_handler_stale :
  hgetall milk_deleted_by_handler (_task_key "t1") = ∅.
Proof. by vm_compute. Qed.

Lemma milk_deleted_by_handler_in_result :
  in_filter_result milk_deleted_by_handler "u1" (Some ["pending"]) None None "t1".
Proof.
  split.
  - exists "pending". split; [by left|]. by vm_compute.
  - intros [?|?]; done.
Qed.

Lemma stale_ids_dropped_by_handler_witness :
  hgetall milk_deleted_by_handler (_task_key "t1") = ∅ ∧
  TaskStore.get_tasks_by_filters strftime_utc milk_deleted_by_handler "u1"
    (Some ["pending"]) None None = Ok [None] ∧
  None ∈ [None : option (gmap string pyval)] ∧
  Main.get_tasks strftime_utc parse_epoch milk_deleted_by_handler "u1"
    (Some ["pending"]) None None = Main.Respond [] ∧
  None ∉ ([] : list (option (gmap string pyval))).
Proof.
  assert (TaskStore.get_tasks_by_filters strftime_utc milk_deleted_by_handler "u1"
            (Some ["pending"]) None None = Ok [None]) as Hq by (by vm_compute).
  assert (Main.get_tasks strftime_utc parse_epoch milk_deleted_by_handler "u1"
            (Some ["pending"]) None None = Main.Respond []) as Hans
    by (by vm_compute).
  destruct (stale_ids_dropped_by_handler strftime_utc parse_epoch
              milk_deleted_by_handler "u1" "t1" milk_deleted_by_handler_stale)
    as (_ & Hshown & _ & Hhandler).
  split; [apply milk_deleted_by_handler_stale|]. split; [exact Hq|].
  split; [exact (Hshown _ _ _ _ milk_deleted_by_handler_in_result Hq)|].
  split; [exact Hans|]. exact (proj1 (Hhandler _ _ _ _ Hans)).
Defined.

Lemma update_keeps_identity_witness :
  "user_id" ∈ ["id"; "user_id"; "created_at"] ∧
  hgetall (state_after (milk (Some 500))
             (TaskStore.update_task parse_epoch (milk (Some 500)) "u1" "t1"
                {[ "description" := PStr "buy oat milk" ]}))
          (_task_key "t1") !! "user_id"
  = hgetall (milk (Some 500)) (_task_key "t1") !! "user_id".
Proof.
  assert ("user_id" ∈ ["id"; "user_id"; "created_at"]) as Hin
    by (right; left).
  split; [exact Hin|].
  apply (update_keeps_identity parse_epoch (milk (Some 500)) "t1" "user_id" Hin).
  by vm_compute.
Defined.

Lemma not_found_is_a_result_witness :
  TaskStore.update_task parse_epoch (milk (Some 500)) "u1" "t2"
    {[ "status" := PStr "completed" ]} = Ok (milk (Some 500), false) ∧
  TaskStore.delete_task strftime_utc (milk (Some 500)) "u1" "t2"
  = Ok (milk (Some 500), false) ∧
  TaskStore.get_task strftime_utc (milk (Some 500)) "t2" = Ok None.
Proof. apply not_found_is_a_result. by vm_compute. Defined.

Lemma update_same_status_keeps_indexes_witness :
  ∃ r', TaskStore.update_task parse_epoch (milk (Some 500)) "u1" "t1"
          {[ "status" := PStr "pending"; "description" := PStr "buy oat milk" ]}
        = Ok (r', true) ∧
        sets r' = sets (milk (Some 500)) ∧ zsets r' = zsets (milk (Some 500)).
Proof.
  apply (update_same_status_keeps_indexes parse_epoch _ _ _ "pending" (Some 500));
    [apply milk_holds | by vm_compute | by vm_compute].
Defined.

Lemma update_due_sentinel_keeps_due_witness :
  ∃ r', TaskStore.update_task parse_epoch (milk (Some 500)) "u1" "t1"
          {[ "due_time" := PStr "None" ]} = Ok (r', true) ∧
        hgetall r' (_task_key "t1") !! "due_time" = Some (encode_due (Some 500)) ∧
        (∀ d, Some 500 = Some d → zscore r' (_due_key "u1") "t1" = Some d) ∧
        (zscore (milk (Some 500)) (_due_key "u1") "t1" = Some 500 →
         zsets r' = zsets (milk (Some 500))).
Proof.
  apply (update_due_sentinel_keeps_due parse_epoch _ _ _ "pending" (Some 500) _
           (PStr "None")); [apply milk_holds | done | by vm_compute |].
  right. by right.
Defined.

(** * More of the store and of the handlers *)

(** ** Members of the two indexes *)

Lemma zscore_zsets (r r' : redis) (k t : string) :
  zsets r' = zsets r → zscore r' k t = zscore r k t.
Proof. unfold zscore, zmembers. by intros ->. Qed.

Lemma zscore_zadd (r : redis) (k k' x t : string) (z : Z) :
  zscore (zadd r k x z) k' t
  = if decide (k = k' ∧ x = t) then Some z else zscore r k' t.
Proof.
  unfold zscore. rewrite zmembers_zadd.
  destruct (decide (k = k')) as [->|Hk].
  - destruct (decide (x = t)) as [->|Hx].
    + rewrite lookup_insert_eq. by rewrite decide_True.
    + rewrite lookup_insert_ne by done. by rewrite decide_False by tauto.
  - by rewrite decide_False by tauto.
Qed.

Lemma zscore_zrem (r : redis) (k k' x t : string) :
  zscore (zrem r k x) k' t
  = if decide (k = k' ∧ x = t) then None else zscore r k' t.
Proof.
  unfold zscore. rewrite zmembers_zrem.
  destruct (decide (k = k')) as [->|Hk].
  - destruct (decide (x = t)) as [->|Hx].
    + rewrite lookup_delete_eq. by rewrite decide_True.
    + rewrite lookup_delete_ne by done. by rewrite decide_False by tauto.
  - by rewrite decide_False by tauto.
Qed.

Lemma elem_of_smembers_sadd (r : redis) (k k' x t : string) :
  t ∈ smembers (sadd r k x) k' ↔ (k = k' ∧ x = t) ∨ t ∈ smembers r k'.
Proof.
  rewrite smembers_sadd. case_decide as Hk.
  - subst. rewrite elem_of_union, elem_of_singleton. intuition congruence.
  - intuition congruence.
Qed.

Lemma elem_of_smembers_srem (r : redis) (k k' x t : string) :
  t ∈ smembers (srem r k x) k' ↔ ¬ (k = k' ∧ x = t) ∧ t ∈ smembers r k'.
Proof.
  rewrite smembers_srem. case_decide as Hk.
  - subst. rewrite elem_of_difference, elem_of_singleton. intuition congruence.
  - intuition congruence.
Qed.

(** ** Key names *)

Lemma status_key_same_user (u s s' : string) :
  _status_key u s = _status_key u s' → s = s'.
Proof.
  unfold _status_key. intros H.
  by repeat apply (inj (String.app _)) in H.
Qed.

Lemma due_key_inj (u u' : string) : _due_key u = _due_key u' → u = u'.
Proof.
  unfold _due_key. intros H. apply (inj (String.app _)) in H.
  by apply string_app_inv_tail in H.
Qed.

(** X12. The keys of the store never collide: a task key determines the
    task id, a due key the user, a status key of a status of the
    enumeration the user and the status; a task key is no status key and
    no due key, and a status key of a status of the enumeration is no due
    key. *)
Theorem key_names_never_collide :
  (∀ t t', _task_key t = _task_key t' → t = t') ∧
  (∀ u u', _due_key u = _due_key u' → u = u') ∧
  (∀ u u' s s', valid_status s → valid_status s' →
     _status_key u s = _status_key u' s' → u = u' ∧ s = s') ∧
  (∀ t u s, _task_key t ≠ _status_key u s) ∧
  (∀ t u, _task_key t ≠ _due_key u) ∧
  (∀ u u' s, valid_status s → _status_key u s ≠ _due_key u').
Proof.
  split; [exact task_key_inj|]. split; [exact due_key_inj|].
  split; [exact status_key_inj|]. split; [exact task_key_not_status|].
  split; [exact task_key_not_due | exact status_key_not_due].
Qed.

(** ** Lists of results *)

Lemma mapM_Raise_elem {A B} (f : A → result B) (l : list A) (x : A) (e : exn) :
  x ∈ l → f x = Raise e → ∃ e', mapM f l = Raise e'.
Proof.
  induction l as [|a l IH]; intros Hx Hf; [by inversion Hx|].
  simpl. destruct (f a) as [b|ea] eqn:Hfa; [|by eexists]. simpl.
  apply elem_of_cons in Hx as [->|Hx]; [congruence|].
  destruct (IH Hx Hf) as [e' ->]. by eexists.
Qed.

Lemma mapM_Ok_elem_inv {A B} (f : A → result B) (l : list A) (ys : list B) (y : B) :
  mapM f l = Ok ys → y ∈ ys → ∃ x, x ∈ l ∧ f x = Ok y.
Proof.
  revert ys. induction l as [|a l IH]; intros ys Hm Hy.
  - simpl in Hm. injection Hm as <-. by inversion Hy.
  - simpl in Hm. destruct (f a) as [b|] eqn:Hfa; [|done]. simpl in Hm.
    destruct (mapM f l) as [bs|]; [|done]. simpl in Hm. injection Hm as <-.
    apply elem_of_cons in Hy as [->|Hy].
    + exists a. split; [by left | done].
    + destruct (IH bs eq_refl Hy) as (x & Hx & Hfx). exists x. split; [by right | done].
Qed.

Lemma mapM_Forall2 {A B} (f : A → result B) (l : list A) (ys : list B) :
  mapM f l = Ok ys → Forall2 (λ x y, f x = Ok y) l ys.
Proof.
  revert ys. induction l as [|a l IH]; intros ys Hm.
  - injection Hm as <-. constructor.
  - simpl in Hm. destruct (f a) as [b|] eqn:Hfa; [|done]. simpl in Hm.
    destruct (mapM f l) as [bs|]; [|done]. simpl in Hm. injection Hm as <-.
    constructor; [done|]. by apply IH.
Qed.

(** ** Creation *)

Lemma create_task_record (r : redis) (uuid4 : string) (now : Z)
    (user_id description status : string) (due_time : option Z) :
  hgetall r (_task_key uuid4) = ∅ →
  hgetall (TaskStore.create_task r uuid4 now user_id description status due_time).1
    (_task_key uuid4)
  = {[ "id" := uuid4; "user_id" := user_id; "description" := description;
       "status" := status; "due_time" := encode_due due_time;
       "created_at" := str_Z now ]}.
Proof.
  intros Hfresh.
  rewrite (hgetall_hashes _ _ _ (create_task_hashes _ _ _ _ _ _ _)).
  rewrite hgetall_hset, decide_True, Hfresh by done. apply (right_id_L ∅ (∪)).
Qed.

Lemma create_task_zsets (r : redis) (uuid4 : string) (now : Z)
    (user_id description status : string) (due_time : option Z) :
  zsets (TaskStore.create_task r uuid4 now user_id description status due_time).1
  = zsets (match due_time with
           | Some d => zadd r (_due_key user_id) uuid4 d
           | None => r
           end).
Proof. unfold TaskStore.create_task. by destruct due_time. Qed.

(** X2. Creating a task leaves every other task as it was: its record,
    its membership in every set and its score in every sorted set. *)
Theorem create_task_touches_new_task_only (r : redis) (uuid4 : string) (now : Z)
    (user_id description status : string) (due_time : option Z) (t : string) :
  t ≠ uuid4 →
  hgetall (TaskStore.create_task r uuid4 now user_id description status due_time).1
    (_task_key t) = hgetall r (_task_key t) ∧
  (∀ k, t ∈ smembers
            (TaskStore.create_task r uuid4 now user_id description status due_time).1 k
        ↔ t ∈ smembers r k) ∧
  (∀ k, zscore
          (TaskStore.create_task r uuid4 now user_id description status due_time).1 k t
        = zscore r k t).
Proof.
  intros Ht. split; [by apply create_task_other|]. split.
  - intros k. rewrite create_task_sets. case_decide; [|done].
    rewrite elem_of_union, elem_of_singleton. intuition congruence.
  - intros k. rewrite (zscore_zsets _ _ _ _ (create_task_zsets _ _ _ _ _ _ _)).
    destruct due_time as [d|]; [|done]. rewrite zscore_zadd.
    by rewrite decide_False by intuition congruence.
Qed.

(** ** Records as the store writes them *)

Lemma holds_task_exists (r : redis) (t st : string) (due : option Z) :
  holds_task r t st due → hgetall r (_task_key t) ≠ ∅.
Proof. intros [Hs _] He. by rewrite He, lookup_empty in Hs. Qed.

Lemma updated_record (r : redis) (task_id : string) (updates : gmap string pyval)
    (new_due : option Z) (f : string) :
  hgetall (hset r (_task_key task_id)
             (TaskStore.apply_updates (hgetall r (_task_key task_id)) updates new_due))
    (_task_key task_id) !! f
  = match updates !! f with
    | Some v => Some (updated_field f v new_due)
    | None => hgetall r (_task_key task_id) !! f
    end.
Proof.
  rewrite hgetall_hset, decide_True, apply_updates_union by done.
  apply apply_updates_lookup.
Qed.

Lemma encode_due_str_Z (due : option Z) (d : Z) :
  encode_due due = str_Z d ↔ due = Some d.
Proof.
  destruct due as [d'|]; simpl.
  - split; [intros H; by apply (inj str_Z) in H; subst | by intros [= ->]].
  - split; [|done]. intros H. symmetry in H. by apply str_Z_nonempty in H.
Qed.

Lemma read_due_away (due : option Z) : due ≠ Some 0 → read_due due = due.
Proof.
  destruct due as [d|]; [|done]. simpl. intros H.
  rewrite decide_False; [done|]. by intros ->.
Qed.

Lemma model_dump_fields (payload : Main.TaskUpdate) :
  delete "user_id" (Main.model_dump payload) !! "status"
  = from_option PStr PNone <$> Main.status payload ∧
  delete "user_id" (Main.model_dump payload) !! "due_time"
  = from_option PStr PNone <$> Main.due_time payload.
Proof.
  destruct payload as [[[d|]|] [[du|]|] [[st|]|] u];
    unfold Main.model_dump, Main.dump_field; simpl; by simplify_map_eq.
Qed.

Lemma queue_tasks_same (uuid4 : nat → string) (now : Z) (user_id : string)
    (tasks tasks' : list TaskStore.bulk_task) (i : nat) :
  Forall2 (λ a b, TaskStore.bulk_description a = TaskStore.bulk_description b ∧
                  TaskStore.bulk_status a = TaskStore.bulk_status b ∧
                  TaskStore.bulk_due_time a = TaskStore.bulk_due_time b)
          tasks tasks' →
  TaskStore.queue_tasks uuid4 now user_id i tasks
  = TaskStore.queue_tasks uuid4 now user_id i tasks'.
Proof.
  intros H. revert i. induction H as [|a b l l' (Hd & Hs & Hdue) _ IH]; intros i;
    [done|].
  simpl. by rewrite IH, Hd, Hs, Hdue.
Qed.

(** ** The due index at a creation *)

Lemma due_index_empty : due_index_agrees empty_redis ∅ ∧ dues_written empty_redis.
Proof.
  split.
  - intros t u d. unfold zscore, zmembers. simpl.
    rewrite !lookup_empty. simpl. rewrite lookup_empty.
    split; [done | by intros [? _]].
  - intros t H. exfalso. apply H. unfold hgetall. simpl. by rewrite lookup_empty.
Qed.

Lemma due_index_create (r : redis) (own : gmap string string)
    (uuid4 : string) (now : Z) (user_id description status : string)
    (due_time : option Z) :
  records_known r own → due_index_agrees r own → dues_written r →
  own !! uuid4 = None → due_time ≠ Some 0 →
  let r' := (TaskStore.create_task r uuid4 now user_id description status due_time).1 in
  due_index_agrees r' (<[uuid4 := user_id]> own) ∧ dues_written r'.
Proof.
  intros Hrec Hidx Hdues Hfresh Hd0 r'. unfold due_index_agrees in Hidx.
  assert (hgetall r (_task_key uuid4) = ∅) as Hempty.
  { destruct (decide (hgetall r (_task_key uuid4) = ∅)) as [|Hne]; [done|].
    destruct (Hrec _ Hne) as [[u Hu] _]. congruence. }
  assert (∀ u d, zscore r (_due_key u) uuid4 ≠ Some d) as Hnone.
  { intros u d Hz. apply Hidx in Hz as [Hu _]. congruence. }
  assert (hgetall r' (_task_key uuid4) !! "due_time" = Some (encode_due due_time))
    as Hnew.
  { subst r'. rewrite create_task_record by done. by simplify_map_eq. }
  split.
  - intros t u d. subst r'.
    rewrite (zscore_zsets _ _ _ _ (create_task_zsets _ _ _ _ _ _ _)).
    destruct (decide (t = uuid4)) as [->|Ht].
    + rewrite lookup_insert_eq, Hnew.
      destruct due_time as [d0|].
      * rewrite zscore_zadd. case_decide as Hk.
        -- destruct Hk as [Hk _]. apply due_key_inj in Hk. subst.
           split.
           ++ intros [= ->]. done.
           ++ intros [_ [= H]]. apply (inj str_Z) in H. by subst.
        -- split; [intros Hz; by apply Hnone in Hz|].
           intros [[= ->] _]. by destruct Hk.
      * split; [intros Hz; by apply Hnone in Hz|].
        intros [_ [= H]]. symmetry in H. by apply str_Z_nonempty in H.
    + rewrite lookup_insert_ne by done. rewrite create_task_other by done.
      rewrite <-(Hidx t u d). destruct due_time as [d0|]; [|done].
      rewrite zscore_zadd, decide_False; [done|]. intros [_ ?]. by subst.
  - intros t. destruct (decide (t = uuid4)) as [->|Ht].
    + intros _. by exists due_time.
    + subst r'. rewrite create_task_other by done. apply Hdues.
Qed.

(** ** The client *)

(** X17. [get_client] stores the client before it tests the connection:
    after any call, whatever the outcome of its test, there is a stored
    client, and every later call returns it without a test of its own. *)
Theorem get_client_never_tests_again (_instance : option RedisClientSingleton.client)
    (ping ping' : bool) :
  let after := (RedisClientSingleton.get_client _instance ping).1 in
  is_Some after ∧
  RedisClientSingleton.get_client after ping' = (after, after).
Proof. by destruct _instance as [[]|], ping. Qed.

Section MoreProperties.

Variable fromtimestamp_strftime : Z → result string.
Variable dateparser_parse : string → option Z.

Set Default Proof Using "Type".

(** Propositional steps, kept from drawing on the formatter and the parser
    where the goal does not speak of them. *)
Ltac prop_solve :=
  try clear dateparser_parse; try clear fromtimestamp_strftime; tauto.
Ltac eq_solve :=
  try clear dateparser_parse; try clear fromtimestamp_strftime; intuition congruence.

Abbreviation get_task := (TaskStore.get_task fromtimestamp_strftime).
Abbreviation update_task := (TaskStore.update_task dateparser_parse).
Abbreviation delete_task := (TaskStore.delete_task fromtimestamp_strftime).
Abbreviation get_tasks_by_filters := (TaskStore.get_tasks_by_filters fromtimestamp_strftime).
Abbreviation step := (step fromtimestamp_strftime dateparser_parse).
Abbreviation run := (run fromtimestamp_strftime dateparser_parse).
Abbreviation admissible_from :=
  (admissible_from fromtimestamp_strftime dateparser_parse).
Abbreviation admissible_run := (admissible_run fromtimestamp_strftime dateparser_parse).

(** ** Reading back what was created *)

(** X1. Reading back a task that [create_task] has just written under an
    id with no record gives the six fields of the creation, [created_at]
    being the clock reading in decimal.  Its [due_time] is the formatted
    date; it is [None] when no due time was given and also when the due
    time is epoch 0, and the read raises when the date cannot be
    formatted. *)
Theorem create_then_get (r : redis) (uuid4 : string) (now : Z)
    (user_id description status : string) (due_time : option Z) :
  hgetall r (_task_key uuid4) = ∅ →
  get_task (TaskStore.create_task r uuid4 now user_id description status due_time).1
    uuid4
  = match read_due due_time with
    | Some z =>
        try! s := fromtimestamp_strftime z in
        Ok (Some (shown_task uuid4 user_id description status now (PStr s)))
    | None => Ok (Some (shown_task uuid4 user_id description status now PNone))
    end.
Proof.
  intros Hfresh. unfold TaskStore.get_task.
  rewrite (create_task_record _ _ _ _ _ _ _ Hfresh).
  rewrite decide_False by apply insert_non_empty.
  rewrite (due_time_field_encoded _ due_time) by by simplify_map_eq.
  assert (∀ shown, <["due_time" := shown]>
            (PStr <$> ({[ "id" := uuid4; "user_id" := user_id;
                          "description" := description; "status" := status;
                          "due_time" := encode_due due_time;
                          "created_at" := str_Z now ]} : gmap string string))
          = shown_task uuid4 user_id description status now shown) as Heq.
  { intros shown. unfold shown_task. apply map_eq. intros k.
    rewrite !fmap_insert, map_fmap_singleton.
    destruct (decide (k = "due_time")) as [->|]; [by simplify_map_eq|].
    rewrite lookup_insert_ne by done.
    rewrite !lookup_insert. repeat case_decide; by simplify_eq. }
  simpl. destruct (read_due due_time) as [z|]; simpl.
  - destruct (fromtimestamp_strftime z); simpl; [|done]. by rewrite Heq.
  - by rewrite Heq.
Qed.

(** ** Updates of the status and of the due time *)

Lemma update_status_found (r : redis) (user_id task_id old : string)
    (due : option Z) (updates : gmap string pyval) (v : pyval) :
  holds_task r task_id old due →
  updates !! "status" = Some v →
  v ≠ PStr old →
  updates !! "due_time" = None →
  update_task r user_id task_id updates
  = Ok (sadd (srem (hset r (_task_key task_id)
                      (TaskStore.apply_updates (hgetall r (_task_key task_id))
                         updates (read_due due)))
                (_status_key user_id old) task_id)
          (_status_key user_id (py_str v)) task_id, true).
Proof.
  intros Ht Hv Hne Hd.
  rewrite (update_task_found _ _ _ _ _ _ _ Ht). cbv zeta.
  rewrite Hv, Hd. simpl. by rewrite decide_True.
Qed.

(** X3. An update of an existing task that carries a status other than
    the stored one, and no due time, returns true and stores the new
    status (the empty string for [None]).  The id is then in the bucket of
    the caller and the new status and, when the new status written as a
    string is not the old one, no longer in the bucket of the caller and
    the old status; no other id changes bucket and the sorted sets are as
    they were. *)
Theorem update_status_moves_task (r : redis) (user_id task_id old : string)
    (due : option Z) (updates : gmap string pyval) (v : pyval) :
  holds_task r task_id old due →
  updates !! "status" = Some v →
  v ≠ PStr old →
  updates !! "due_time" = None →
  ∃ r', update_task r user_id task_id updates = Ok (r', true) ∧
        holds_task r' task_id (stored_value v) due ∧
        task_id ∈ smembers r' (_status_key user_id (py_str v)) ∧
        (py_str v ≠ old → task_id ∉ smembers r' (_status_key user_id old)) ∧
        (∀ k t, t ≠ task_id → t ∈ smembers r' k ↔ t ∈ smembers r k) ∧
        zsets r' = zsets r.
Proof.
  intros Ht Hv Hne Hd. rewrite (update_status_found _ _ _ _ _ _ _ Ht Hv Hne Hd).
  destruct Ht as [Hst Hdue].
  eexists. split; [reflexivity|].
  split; [|split; [|split; [|split]]].
  - split.
    + etrans; [apply updated_record|]. rewrite Hv. unfold updated_field.
      rewrite decide_False by done. by destruct v.
    + etrans; [apply updated_record|]. by rewrite Hd.
  - apply elem_of_smembers_sadd. by left.
  - intros Hpy. rewrite elem_of_smembers_sadd, elem_of_smembers_srem.
    intros [[Hk _]|[Hk _]]; [|by apply Hk].
    apply status_key_same_user in Hk. done.
  - intros k t Hneq. rewrite elem_of_smembers_sadd, elem_of_smembers_srem.
    change (smembers (hset r ?a ?b) k) with (smembers r k). eq_solve.
  - done.
Qed.

(** X4. An update of an existing task with a due time that is parsed to
    [z] returns true, stores [z] in the record and leaves the task at score
    [z] in the due index of the caller; no other entry of a sorted set
    changes. *)
Theorem update_due_time_reindexes (r : redis) (user_id task_id status : string)
    (due : option Z) (updates : gmap string pyval) (v : pyval) (z : Z) :
  holds_task r task_id status due →
  updates !! "due_time" = Some v →
  ¬ TaskStore.keeps_due_time v →
  TaskStore.get_parsed_timestamp dateparser_parse v = Ok z →
  ∃ r', update_task r user_id task_id updates = Ok (r', true) ∧
        hgetall r' (_task_key task_id) !! "due_time" = Some (str_Z z) ∧
        zscore r' (_due_key user_id) task_id = Some z ∧
        (∀ k t, ¬ (k = _due_key user_id ∧ t = task_id) →
                zscore r' k t = zscore r k t).
Proof.
  intros Ht Hv Hkeep Hparse.
  rewrite (update_task_found _ _ _ _ _ _ _ Ht). cbv zeta.
  rewrite Hv. rewrite decide_False by done. rewrite Hparse. simpl.
  eexists. split; [reflexivity|].
  set (task' := TaskStore.apply_updates _ _ _).
  set (r1 := hset r (_task_key task_id) task').
  set (r2 := match updates !! "status" with Some _ => _ | None => _ end).
  assert (hashes r2 = hashes r1 ∧ zsets r2 = zsets r) as [Hh Hz].
  { subst r2. destruct (updates !! "status"); [case_decide|]; done. }
  set (r3 := match read_due due with Some _ => _ | None => _ end).
  assert (hashes r3 = hashes r1) as Hh3.
  { subst r3. destruct (read_due due); [case_decide|]; done. }
  assert (∀ k t, ¬ (k = _due_key user_id ∧ t = task_id) →
            zscore r3 k t = zscore r k t) as Hz3.
  { intros k t Hkt. subst r3. destruct (read_due due) as [d|].
    - case_decide; [rewrite zscore_zrem, decide_False
                      by (intros [? ?]; apply Hkt; by split)|];
        by apply zscore_zsets.
    - by apply zscore_zsets. }
  split; [|split].
  - rewrite (hgetall_hashes r1) by (by rewrite <-Hh3). subst r1 task'.
    rewrite hgetall_hset, decide_True, apply_updates_union by done.
    by rewrite apply_updates_lookup, Hv.
  - rewrite zscore_zadd. by rewrite decide_True.
  - intros k t Hkt.
    rewrite zscore_zadd, decide_False by (intros [? ?]; apply Hkt; by split).
    by apply Hz3.
Qed.

(** X5. An update of an existing task whose due time cannot be parsed
    ends in the exception of [get_parsed_timestamp]: it is raised before
    the first write, so the call writes nothing. *)
Theorem update_unparseable_due_time_writes_nothing (r : redis)
    (user_id task_id status : string) (due : option Z)
    (updates : gmap string pyval) (v : pyval) (e : exn) :
  holds_task r task_id status due →
  updates !! "due_time" = Some v →
  ¬ TaskStore.keeps_due_time v →
  TaskStore.get_parsed_timestamp dateparser_parse v = Raise e →
  update_task r user_id task_id updates = Raise e.
Proof.
  intros Ht Hv Hkeep Hparse.
  rewrite (update_task_found _ _ _ _ _ _ _ Ht). cbv zeta.
  by rewrite Hv, decide_False, Hparse by done.
Qed.

(** ** Reading and deleting an existing task *)

Lemma get_task_found (r : redis) (task_id status : string) (due : option Z) :
  holds_task r task_id status due →
  get_task r task_id
  = match read_due due with
    | Some z =>
        try! s := fromtimestamp_strftime z in
        Ok (Some (<["due_time" := PStr s]> (PStr <$> hgetall r (_task_key task_id))))
    | None =>
        Ok (Some (<["due_time" := PNone]> (PStr <$> hgetall r (_task_key task_id))))
    end.
Proof.
  intros Ht. unfold TaskStore.get_task.
  rewrite decide_False by (by eapply holds_task_exists).
  destruct Ht as [_ Hd]. rewrite (due_time_field_encoded _ _ Hd). simpl.
  destruct (read_due due) as [z|]; [|done]. simpl.
  by destruct (fromtimestamp_strftime z).
Qed.

Lemma delete_task_found (r : redis) (user_id task_id status : string)
    (due : option Z) :
  holds_task r task_id status due →
  (∀ d, due = Some d → d ≠ 0 ∧ ∃ s, fromtimestamp_strftime d = Ok s ∧ s ≠ "") →
  delete_task r user_id task_id
  = Ok (del (match due with
             | Some _ => zrem (drop_status r user_id task_id (Some status))
                           (_due_key user_id) task_id
             | None => drop_status r user_id task_id (Some status)
             end) (_task_key task_id), true).
Proof.
  intros Ht Hfmt. unfold TaskStore.delete_task.
  rewrite (get_task_found _ _ _ _ Ht).
  assert (∃ shown, (match read_due due with
            | Some z =>
                try! s := fromtimestamp_strftime z in
                Ok (Some (<["due_time" := PStr s]>
                            (PStr <$> hgetall r (_task_key task_id))))
            | None =>
                Ok (Some (<["due_time" := PNone]>
                            (PStr <$> hgetall r (_task_key task_id))))
            end) = Ok (Some (<["due_time" := shown]>
                               (PStr <$> hgetall r (_task_key task_id)))) ∧
          truthy shown = match due with Some _ => true | None => false end)
    as (shown & -> & Htruthy).
  { destruct due as [d|]; simpl.
    - destruct (Hfmt d eq_refl) as (Hd & s & Hs & Hne).
      rewrite decide_False by done. rewrite Hs. simpl.
      exists (PStr s). split; [done|]. simpl.
      destruct (String.eqb_spec s ""); [done|done].
    - by exists PNone. }
  simpl. rewrite lookup_insert_eq. simpl.
  rewrite (lookup_insert_ne _ "due_time" "status"), lookup_fmap by done.
  destruct Ht as [Hst Hdue]. rewrite Hst. simpl. rewrite Htruthy.
  destruct (decide (status = "" ∨ status = "0")) as [Hsent|Hsent].
  - rewrite decide_True by (destruct Hsent as [-> | ->]; auto).
    by destruct due.
  - rewrite decide_False by (intros [?|[?|?]]; simplify_eq; prop_solve).
    by destruct due.
Qed.

(** X6. Deleting an existing task whose status is neither empty nor "0"
    and whose due time, if it has one, is not epoch 0 and can be shown,
    returns true: the record is gone, the id has left the caller's bucket
    of that status and, when there was a due time, the caller's due index.
    Records, bucket memberships and due index scores of the other tasks
    are as they were. *)
Theorem delete_removes_task (r : redis) (user_id task_id status : string)
    (due : option Z) :
  holds_task r task_id status due →
  status ≠ "" → status ≠ "0" →
  (∀ d, due = Some d → d ≠ 0 ∧ ∃ s, fromtimestamp_strftime d = Ok s ∧ s ≠ "") →
  ∃ r', delete_task r user_id task_id = Ok (r', true) ∧
        hgetall r' (_task_key task_id) = ∅ ∧
        (task_id ∉ smembers r' (_status_key user_id status)) ∧
        zscore r' (_due_key user_id) task_id
        = match due with
          | Some _ => None
          | None => zscore r (_due_key user_id) task_id
          end ∧
        (∀ t, t ≠ task_id →
           hgetall r' (_task_key t) = hgetall r (_task_key t) ∧
           (∀ u s, t ∈ smembers r' (_status_key u s) ↔ t ∈ smembers r (_status_key u s)) ∧
           (∀ u, zscore r' (_due_key u) t = zscore r (_due_key u) t)).
Proof.
  intros Ht Hs1 Hs2 Hfmt. rewrite (delete_task_found _ _ _ _ _ Ht Hfmt).
  eexists. split; [reflexivity|].
  unfold drop_status. rewrite decide_False by prop_solve.
  set (r1 := srem r (_status_key user_id status) task_id).
  set (r2 := match due with Some _ => zrem r1 _ _ | None => r1 end).
  assert (∀ k t, t ∈ smembers r2 k ↔ t ∈ smembers r1 k) as Hsets
    by (by intros; subst r2; destruct due).
  split; [|split; [|split]].
  - by rewrite hgetall_del, decide_True.
  - rewrite smembers_del, decide_False by apply task_key_not_status.
    rewrite Hsets. subst r1. rewrite elem_of_smembers_srem. prop_solve.
  - unfold zscore. rewrite zmembers_del, decide_False by apply task_key_not_due.
    fold (zscore r2 (_due_key user_id) task_id). subst r2. destruct due; [|done].
    rewrite zscore_zrem. by rewrite decide_True.
  - intros t Hne. split; [|split].
    + rewrite hgetall_del, decide_False; [by subst r2; destruct due|].
      intros H. by apply task_key_inj in H.
    + intros u s. rewrite smembers_del, decide_False by apply task_key_not_status.
      rewrite Hsets. subst r1. rewrite elem_of_smembers_srem. eq_solve.
    + intros u. unfold zscore.
      rewrite zmembers_del, decide_False by apply task_key_not_due.
      fold (zscore r2 (_due_key u) t). subst r2. destruct due; [|done].
      rewrite zscore_zrem, decide_False by eq_solve. done.
Qed.

(** X7. A task whose stored due time cannot be formatted (a date out of
    the range of [datetime]) can be neither read nor deleted: [get_task]
    raises, GET /task/{task_id} answers 500, [delete_task] raises before
    it removes anything, and so does every list of tasks read over a set
    of ids that contains the task. *)
Theorem unformattable_due_time_blocks_task (r : redis) (user_id task_id status : string)
    (d : Z) (e : exn) :
  holds_task r task_id status (Some d) →
  d ≠ 0 →
  fromtimestamp_strftime d = Raise e →
  get_task r task_id = Raise e ∧
  Main.get_task fromtimestamp_strftime r task_id = Main.HTTPException 500 ∧
  delete_task r user_id task_id = Raise e ∧
  ∀ ids : gset string,
    task_id ∈ ids → ∃ e', mapM (get_task r) (elements ids) = Raise e'.
Proof.
  intros Ht Hd Hfmt.
  assert (get_task r task_id = Raise e) as Hget.
  { rewrite (get_task_found _ _ _ _ Ht). simpl.
    rewrite decide_False by done. by rewrite Hfmt. }
  split; [done|]. split; [|split].
  - unfold Main.get_task. by rewrite Hget.
  - unfold TaskStore.delete_task. by rewrite Hget.
  - intros ids Hin. apply (mapM_Raise_elem _ _ task_id e); [|done].
    by apply elem_of_elements.
Qed.

(** ** Bulk creation *)

Lemma queue_tasks_creates (uuid4 : nat → string) (now : Z) (user_id : string)
    (tasks : list TaskStore.bulk_task) (i : nat) (r : redis) :
  execute r (TaskStore.queue_tasks uuid4 now user_id i tasks).2
  = foldl step r
      (creates uuid4 now user_id i tasks) ∧
  (TaskStore.queue_tasks uuid4 now user_id i tasks).1
  = uuid4 <$> seq i (length tasks).
Proof.
  revert i r. induction tasks as [|task rest IH]; intros i r; [done|].
  simpl. destruct (TaskStore.queue_tasks uuid4 now user_id (S i) rest)
    as [ids pipe] eqn:Hq.
  specialize (IH (S i)). rewrite Hq in IH. simpl in IH. simpl.
  split; [|f_equal; apply (IH r)].
  unfold execute. rewrite foldl_app. fold (execute
    (foldl run_command r
       ([HSET (_task_key (uuid4 i))
           {[ "id" := uuid4 i; "user_id" := user_id;
              "description" := TaskStore.bulk_description task;
              "status" := default "pending" (TaskStore.bulk_status task);
              "due_time" := match TaskStore.bulk_due_time task with
                            | Some d => str_Z d
                            | None => ""
                            end;
              "created_at" := str_Z now ]};
         SADD (_status_key user_id (default "pending" (TaskStore.bulk_status task)))
           (uuid4 i)]
        ++ match TaskStore.bulk_due_time task with
           | Some d => [ZADD (_due_key user_id) (uuid4 i) d]
           | None => []
           end)%list) pipe).
  rewrite (proj1 (IH _)). f_equal.
  unfold TaskStore.create_task. by destruct (TaskStore.bulk_due_time task).
Qed.

(** X9. [create_tasks_bulk] leaves the server as creating the tasks one
    after the other with [create_task] does, all at the one clock reading,
    the status defaulting to pending; it returns the ids in the order of
    the tasks. *)
Theorem create_tasks_bulk_as_creates (r : redis) (uuid4 : nat → string) (now : Z)
    (user_id : string) (tasks : list TaskStore.bulk_task) :
  TaskStore.create_tasks_bulk r uuid4 now user_id tasks
  = (foldl step r
       (creates uuid4 now user_id 0 tasks),
     uuid4 <$> seq 0 (length tasks)).
Proof.
  unfold TaskStore.create_tasks_bulk.
  pose proof (queue_tasks_creates uuid4 now user_id tasks 0 r) as [H1 H2].
  destruct (TaskStore.queue_tasks uuid4 now user_id 0 tasks) as [ids pipe].
  simpl in *. by rewrite H1, H2.
Qed.

(** ** The two single queries and the default of GET /tasks *)

(** X10. [get_tasks_by_due_range] reads the tasks whose score in the due
    index of the user lies between [start] and [end], both included, each
    once; with [end] below [start] it returns the empty list. *)
Theorem due_range_is_inclusive (r : redis) (user_id : string) (start end_ : Z) :
  (∃ ids, TaskStore.get_tasks_by_due_range fromtimestamp_strftime r user_id start end_
          = mapM (get_task r) ids ∧
          NoDup ids ∧
          ∀ t, t ∈ ids ↔ ∃ d, zscore r (_due_key user_id) t = Some d ∧
                              (start ≤ d)%Z ∧ (d ≤ end_)%Z) ∧
  ((end_ < start)%Z →
   TaskStore.get_tasks_by_due_range fromtimestamp_strftime r user_id start end_ = Ok []).
Proof.
  assert (∀ t, t ∈ zrangebyscore r (_due_key user_id) (Score start) (Score end_)
               ↔ ∃ d, zscore r (_due_key user_id) t = Some d ∧
                      (start ≤ d)%Z ∧ (d ≤ end_)%Z) as Hin.
  { intros t. rewrite elem_of_zrangebyscore. unfold in_range. simpl.
    split; intros (d & Hd & Hr); exists d; (split; [done|]).
    - apply andb_true_iff in Hr as [?%Z.leb_le ?%Z.leb_le]. done.
    - apply andb_true_iff. by rewrite !Z.leb_le. }
  split.
  - eexists. split; [reflexivity|]. split; [|exact Hin].
    unfold zrangebyscore. apply NoDup_fst_map_to_list.
  - intros Hlt. unfold TaskStore.get_tasks_by_due_range.
    destruct (zrangebyscore r (_due_key user_id) (Score start) (Score end_))
      as [|t l] eqn:Hl; [done|].
    assert (t ∈ t :: l) as Ht by left.
    apply Hin in Ht as (d & _ & ? & ?). lia.
Qed.

(** X11. [get_tasks_by_status] gives what [get_tasks_by_filters] gives
    for that one status and no time bound: the same tasks up to the order
    of the list, or an exception in both. *)
Theorem get_tasks_by_status_as_filter (r : redis) (user_id status : string) :
  same_answer
    (get_tasks_by_filters r user_id (Some [status]) None None)
    (TaskStore.get_tasks_by_status fromtimestamp_strftime r user_id status).
Proof.
  unfold TaskStore.get_tasks_by_filters, TaskStore.get_tasks_by_status.
  rewrite decide_False by (intros [?|?]; done). simpl.
  rewrite (right_id_L ∅ (∪)). rewrite mapM_or_empty.
  unfold same_answer. by destruct (mapM _ _).
Qed.

(** X13. GET /tasks with no statuses and no time bound falls back on the
    two statuses: when it answers, the answer holds exactly the tasks that
    [get_task] finds for the ids of the user's pending bucket and of the
    user's completed bucket. *)
Theorem get_tasks_defaults_to_both_statuses (r : redis) (user_id : string)
    (statuses : option (list string)) (answer : list (option (gmap string pyval))) :
  no_statuses statuses →
  Main.get_tasks fromtimestamp_strftime dateparser_parse r user_id statuses None None
  = Main.Respond answer →
  ∀ x, x ∈ answer ↔
       ∃ t task, x = Some task ∧
                 (t ∈ smembers r (_status_key user_id "pending") ∨
                  t ∈ smembers r (_status_key user_id "completed")) ∧
                 get_task r t = Ok (Some task).
Proof.
  intros Hno Hans.
  assert (Main.get_tasks fromtimestamp_strftime dateparser_parse r user_id statuses
            None None
          = match get_tasks_by_filters r user_id (Some ["pending"; "completed"])
                    None None with
            | Ok tasks => Main.Respond (filter (λ task, task ≠ None) tasks)
            | Raise _ => Main.HTTPException 500
            end) as Heq.
  { unfold Main.get_tasks, Main.parsed_or_none, bind.
    destruct Hno as [-> | ->];
      by destruct (TaskStore.get_tasks_by_filters _ _ _ _ _ _). }
  rewrite Heq in Hans. clear Heq.
  destruct (filters_on_indexes fromtimestamp_strftime r user_id None None)
    as (_ & H2 & _).
  destruct (H2 ["pending"; "completed"]) as (ids & Hres & Hids); [done|].
  rewrite Hres in Hans.
  destruct (mapM (get_task r) (elements ids)) as [tasks|] eqn:Hm; [|done].
  injection Hans as <-. intros x. rewrite list_elem_of_filter. split.
  - intros [Hne Hx]. destruct x as [task|]; [|done].
    destruct (mapM_Ok_elem_inv _ _ _ _ Hm Hx) as (t & Ht & Hget).
    exists t, task. split; [done|]. split; [|done].
    apply elem_of_elements, Hids in Ht. destruct Ht as (s & Hs & Hin).
    apply elem_of_cons in Hs as [->|Hs]; [by left|].
    apply elem_of_cons in Hs as [->|Hs]; [by right|]. by inversion Hs.
  - intros (t & task & -> & Hin & Hget). split; [done|].
    apply (mapM_Ok_elem _ _ _ t _ Hm); [|done].
    apply elem_of_elements, Hids.
    destruct Hin as [Hin|Hin]; [exists "pending" | exists "completed"];
      (split; [|done]); [left | right; left].
Qed.

(** ** PUT, DELETE and POST *)

(** X14. PUT /tasks/{task_id} with an empty [user_id] answers 500, and
    with a [user_id] and a task id that has no record it answers 404; in
    both cases the server is left as it was. *)
Theorem put_handler_error_codes (r : redis) (task_id : string)
    (payload : Main.TaskUpdate) :
  (Main.user_id payload = "" →
   Main.update_task dateparser_parse r task_id payload = (r, Main.HTTPException 500)) ∧
  (Main.user_id payload ≠ "" →
   hgetall r (_task_key task_id) = ∅ →
   Main.update_task dateparser_parse r task_id payload = (r, Main.HTTPException 404)).
Proof.
  unfold Main.update_task. rewrite model_dump_user_id. split.
  - intros ->. done.
  - intros Hu Hnone. rewrite decide_False by done.
    unfold TaskStore.update_task. by rewrite decide_True.
Qed.

(** X15. DELETE /tasks/{task_id} calls the store for the user "user-1"
    whoever owns the task.  For an existing task of another user, with a
    status of the enumeration and a due time that, if there is one, is
    not epoch 0 and can be shown, it answers success and the record is
    gone, while the id is in that user's status bucket and due index
    exactly as before the request. *)
Theorem delete_handler_cleans_for_user_1_only (r : redis)
    (user_id task_id status : string) (due : option Z) :
  holds_task r task_id status due →
  valid_status status →
  user_id ≠ "user-1" →
  (∀ d, due = Some d → d ≠ 0 ∧ ∃ s, fromtimestamp_strftime d = Ok s ∧ s ≠ "") →
  ∃ r', Main.delete_task fromtimestamp_strftime r task_id
        = (r', Main.Respond "Task deleted successfully") ∧
        hgetall r' (_task_key task_id) = ∅ ∧
        (task_id ∈ smembers r' (_status_key user_id status)
         ↔ task_id ∈ smembers r (_status_key user_id status)) ∧
        zscore r' (_due_key user_id) task_id = zscore r (_due_key user_id) task_id.
Proof.
  intros Ht Hv Hu Hfmt. unfold Main.delete_task.
  rewrite (delete_task_found _ _ _ _ _ Ht Hfmt).
  eexists. split; [reflexivity|].
  unfold drop_status. rewrite decide_False by (by apply valid_status_not_sentinel).
  set (r1 := srem r (_status_key "user-1" status) task_id).
  set (r2 := match due with Some _ => zrem r1 _ _ | None => r1 end).
  split; [|split].
  - by rewrite hgetall_del, decide_True.
  - rewrite smembers_del, decide_False by apply task_key_not_status.
    transitivity (task_id ∈ smembers r1 (_status_key user_id status));
      [by subst r2; destruct due|].
    subst r1. rewrite elem_of_smembers_srem. split; [prop_solve|].
    intros Hin. split; [|done]. intros [Hk _].
    apply status_key_inj in Hk as [Hk _]; [|done..]. by apply Hu.
  - unfold zscore. rewrite zmembers_del, decide_False by apply task_key_not_due.
    fold (zscore r2 (_due_key user_id) task_id). subst r2. destruct due; [|done].
    rewrite zscore_zrem, decide_False; [done|].
    intros [Hk _]. apply due_key_inj in Hk. by apply Hu.
Qed.

(** X16. A status of null or of the empty string passes
    [TaskUpdate.validate_status].  PUT /tasks/{task_id} with such a
    status, no due time and a [user_id] that is not empty, on an existing
    task with a status of the enumeration and a due time that, if there
    is one, is not epoch 0 and can be shown, answers success: the record
    then holds the empty status, the id has left the bucket of the old
    status and is in the bucket named after the value given ("None" for
    null).  A later [delete_task] by that user removes the record and
    leaves the id in that bucket. *)
Theorem falsy_status_strands_task (r : redis) (task_id old : string)
    (due : option Z) (payload : Main.TaskUpdate) (x : option string) :
  holds_task r task_id old due →
  valid_status old →
  Main.status payload = Some x →
  x = None ∨ x = Some "" →
  Main.due_time payload = None →
  Main.user_id payload ≠ "" →
  (∀ d, due = Some d → d ≠ 0 ∧ ∃ s, fromtimestamp_strftime d = Ok s ∧ s ≠ "") →
  let user_id := Main.user_id payload in
  let bucket := _status_key user_id (py_str (from_option PStr PNone x)) in
  Main.TaskUpdate_validate_status x = Ok x ∧
  ∃ r1 r2,
    Main.update_task dateparser_parse r task_id payload
    = (r1, Main.Respond "Task updated successfully") ∧
    hgetall r1 (_task_key task_id) !! "status" = Some "" ∧
    (task_id ∉ smembers r1 (_status_key user_id old)) ∧
    task_id ∈ smembers r1 bucket ∧
    delete_task r1 user_id task_id = Ok (r2, true) ∧
    hgetall r2 (_task_key task_id) = ∅ ∧
    task_id ∈ smembers r2 bucket.
Proof.
  intros Ht Hv Hs Hx Hd Hu Hfmt user_id bucket.
  split; [by destruct Hx as [-> | ->]|].
  destruct (model_dump_fields payload) as [Hst Hdu].
  rewrite Hs in Hst. rewrite Hd in Hdu. simpl in Hst, Hdu.
  set (v := from_option PStr PNone x) in *.
  assert (v ≠ PStr old) as Hne.
  { subst v. destruct Hx as [-> | ->]; simpl; [done|].
    intros [= <-]. by destruct Hv. }
  assert (stored_value v = "") as Hstored by (subst v; by destruct Hx as [-> | ->]).
  assert (py_str v ≠ old) as Hpy.
  { subst v. destruct Hx as [-> | ->]; simpl; intros <-; by destruct Hv. }
  unfold Main.update_task. rewrite model_dump_user_id.
  rewrite decide_False by done. fold user_id.
  rewrite (update_status_found _ user_id _ _ _ _ _ Ht Hst Hne Hdu).
  eexists. eexists. split; [reflexivity|].
  match goal with
  | |- context [hgetall ?r1 _ !! "status"] => set (r1' := r1)
  end.
  assert (holds_task r1' task_id "" due) as Ht1.
  { destruct Ht as [Hold Hdue]. split.
    - etrans; [apply updated_record|]. rewrite Hst. unfold updated_field.
      rewrite decide_False by done. rewrite <-Hstored. by destruct v.
    - etrans; [apply updated_record|]. by rewrite Hdu. }
  assert (task_id ∈ smembers r1' bucket) as Hin.
  { apply elem_of_smembers_sadd. by left. }
  split; [exact (proj1 Ht1)|]. split.
  { subst r1'. rewrite elem_of_smembers_sadd, elem_of_smembers_srem.
    intros [[Hk _]|[Hk _]]; [|by apply Hk].
    apply status_key_same_user in Hk. done. }
  split; [exact Hin|].
  rewrite (delete_task_found _ _ _ _ _ Ht1 Hfmt).
  split; [reflexivity|]. split; [by rewrite hgetall_del, decide_True|].
  rewrite smembers_del, decide_False by apply task_key_not_status.
  unfold drop_status. simpl. by destruct due.
Qed.

(** X18. POST /tasks parses every due time before it calls the store:
    when one task of the request has a due time that cannot be parsed, the
    answer is 500 and no task of the request is created. *)
Theorem create_tasks_all_or_nothing (r : redis) (uuid4 : nat → string) (now : Z)
    (user_id : string) (tasks : list Main.TaskCreate) (task : Main.TaskCreate)
    (s : string) :
  task ∈ tasks →
  Main.create_due_time task = Some s →
  s ≠ "" →
  dateparser_parse s = None →
  Main.create_tasks dateparser_parse r uuid4 now user_id tasks
  = (r, Main.HTTPException 500).
Proof.
  intros Hin Hdue Hs Hparse. unfold Main.create_tasks.
  match goal with
  | |- context [mapM ?f tasks] =>
      destruct (mapM_Raise_elem f tasks task ValueError Hin) as [e ->]; [|done]
  end.
  unfold Main.parsed_or_none. rewrite Hdue, decide_False by done.
  simpl. by rewrite Hparse.
Qed.

(** X19. POST /tasks files every task under the [user_id] of the
    request: two requests whose tasks agree on description, due time and
    status have the same outcome, whatever the [user_id] fields of their
    tasks. *)
Theorem create_tasks_ignores_task_user_id (r : redis) (uuid4 : nat → string)
    (now : Z) (user_id : string) (tasks tasks' : list Main.TaskCreate) :
  Forall2 (λ a b, Main.create_description a = Main.create_description b ∧
                  Main.create_due_time a = Main.create_due_time b ∧
                  Main.create_status a = Main.create_status b)
          tasks tasks' →
  Main.create_tasks dateparser_parse r uuid4 now user_id tasks
  = Main.create_tasks dateparser_parse r uuid4 now user_id tasks'.
Proof.
  intros H. unfold Main.create_tasks.
  match goal with
  | |- context [mapM ?g tasks] => set (f := g)
  end.
  assert (match mapM f tasks, mapM f tasks' with
          | Ok l, Ok l' =>
              Forall2 (λ a b,
                TaskStore.bulk_description a = TaskStore.bulk_description b ∧
                TaskStore.bulk_status a = TaskStore.bulk_status b ∧
                TaskStore.bulk_due_time a = TaskStore.bulk_due_time b) l l'
          | Raise _, Raise _ => True
          | _, _ => False
          end) as Hdicts.
  { induction H as [|a b l l' (Hd & Hdue & Hs) _ IH]; [by constructor|].
    assert (match f a, f b with
            | Ok x, Ok y =>
                TaskStore.bulk_description x = TaskStore.bulk_description y ∧
                TaskStore.bulk_status x = TaskStore.bulk_status y ∧
                TaskStore.bulk_due_time x = TaskStore.bulk_due_time y
            | Raise _, Raise _ => True
            | _, _ => False
            end) as Hab.
    { unfold f. rewrite Hdue.
      destruct (Main.parsed_or_none dateparser_parse (Main.create_due_time b));
        simpl; [|done].
      by rewrite Hd, Hs. }
    simpl. destruct (f a), (f b), (mapM f l), (mapM f l'); simpl; try done.
    by constructor. }
  destruct (mapM f tasks) as [l|]; destruct (mapM f tasks') as [l'|]; try done.
  unfold TaskStore.create_tasks_bulk. by rewrite (queue_tasks_same _ _ _ l l').
Qed.

(** ** The due index along a run *)

Lemma due_index_update (r : redis) (own : gmap string string)
    (user_id task_id : string) (updates : gmap string pyval) :
  records_known r own → due_index_agrees r own → dues_written r →
  (hgetall r (_task_key task_id) ≠ ∅ → own !! task_id = Some user_id) →
  (∀ s, updates !! "due_time" = Some (PStr s) → dateparser_parse s ≠ Some 0) →
  let r' := state_after r (update_task r user_id task_id updates) in
  due_index_agrees r' own ∧ dues_written r'.
Proof.
  intros Hrec Hidx Hdues Hown Hd0 r'. unfold due_index_agrees in Hidx.
  destruct (decide (hgetall r (_task_key task_id) = ∅)) as [He|Hne].
  { subst r'. unfold TaskStore.update_task. by rewrite decide_True. }
  specialize (Hown Hne).
  destruct (Hrec _ Hne) as [_ (st & _ & Hst)].
  destruct (Hdues _ Hne) as (due & Hdue & Hdue0).
  assert (holds_task r task_id st due) as Ht by done.
  subst r'. rewrite (update_task_found _ _ _ _ _ _ _ Ht). cbv zeta.
  rewrite (read_due_away _ Hdue0).
  assert (∀ d, zscore r (_due_key user_id) task_id = Some d ↔ due = Some d) as Hmine.
  { intros d. rewrite Hidx, Hdue. split.
    - intros [_ [= H]]. by apply encode_due_str_Z.
    - intros ->. done. }
  assert (∀ u d, u ≠ user_id → zscore r (_due_key u) task_id ≠ Some d) as Hothers.
  { intros u d Hu Hz. apply Hidx in Hz as [Ho _]. congruence. }
  destruct (updates !! "due_time") as [v|] eqn:Hv.
  - (* the update carries a due time *)
    match goal with
    | |- context [bind ?m _] =>
        assert (m = Raise ValueError ∨ m = Raise TypeError ∨
                ∃ nd, m = Ok nd ∧ nd ≠ Some 0) as Hm
    end.
    { case_decide as Hk; [right; right; by exists due|].
      destruct v as [|s|n]; simpl; [by right; left| |by right; left].
      destruct (dateparser_parse s) as [z|] eqn:Hp; simpl; [|by left].
      right; right. exists (Some z). split; [done|].
      intros [= ->]. by apply (Hd0 s). }
    destruct Hm as [->|[->|(nd & -> & Hnd0)]]; [done|done|]. simpl.
    match goal with
    | |- due_index_agrees ?r2 _ ∧ _ => set (r' := r2)
    end.
    assert (∀ t, hgetall r' (_task_key t)
                 = hgetall (hset r (_task_key task_id)
                     (TaskStore.apply_updates (hgetall r (_task_key task_id))
                        updates nd)) (_task_key t)) as Hrecs.
    { intros t. apply hgetall_hashes. subst r'.
      destruct due as [d0|]; [rewrite decide_True by (intros ->; done)|];
        (destruct (updates !! "status") as [ns|];
           [destruct (decide (ns ≠ PStr st))|]);
        destruct nd; reflexivity. }
    assert (∀ k t, zscore r' k t
                   = if decide (k = _due_key user_id ∧ t = task_id) then nd
                     else zscore r k t) as Hz.
    { intros k t.
      assert (zsets r' = zsets (match nd with
                                | Some d =>
                                    zadd (match due with
                                          | Some _ => zrem r (_due_key user_id) task_id
                                          | None => r
                                          end) (_due_key user_id) task_id d
                                | None =>
                                    match due with
                                    | Some _ => zrem r (_due_key user_id) task_id
                                    | None => r
                                    end
                                end)) as Hzs.
      { subst r'.
        destruct due as [d0|]; [rewrite decide_True by (intros ->; done)|];
          (destruct (updates !! "status") as [ns|];
             [destruct (decide (ns ≠ PStr st))|]);
          destruct nd; reflexivity. }
      rewrite (zscore_zsets _ _ _ _ Hzs).
      destruct nd as [d|].
      - rewrite zscore_zadd. case_decide as Hk.
        + destruct Hk as [<- <-]. by rewrite decide_True.
        + rewrite decide_False by (intros [-> ->]; prop_solve).
          destruct due; [|done]. rewrite zscore_zrem. by rewrite decide_False.
      - destruct due as [d0|].
        + rewrite zscore_zrem. case_decide as Hk.
          * destruct Hk as [<- <-]. by rewrite decide_True.
          * by rewrite decide_False by (intros [-> ->]; prop_solve).
        + case_decide as Hk; [|done]. destruct Hk as [-> ->].
          apply eq_None_not_Some. intros [d Hzz]. by apply Hmine in Hzz. }
    assert (hgetall r' (_task_key task_id) !! "due_time" = Some (encode_due nd))
      as Hnew.
    { rewrite Hrecs. etrans; [apply updated_record|]. rewrite Hv.
      unfold updated_field. rewrite decide_True by done. by destruct nd. }
    assert (∀ t, t ≠ task_id → hgetall r' (_task_key t) = hgetall r (_task_key t))
      as Hsame.
    { intros t Hne'. rewrite Hrecs, hgetall_hset, decide_False; [done|].
      intros H. apply task_key_inj in H. congruence. }
    split.
    + intros t u d. rewrite Hz.
      destruct (decide (t = task_id)) as [->|Htt].
      * rewrite Hnew. case_decide as Hk.
        -- destruct Hk as [Hk _]. apply due_key_inj in Hk. subst u.
           split; [intros ->; by split|].
           intros [_ [= H]]. by apply encode_due_str_Z.
        -- assert (u ≠ user_id) as Hu by (intros ->; by apply Hk).
           split; [intros Hzz; by apply Hothers in Hzz|].
           intros [Ho _]. congruence.
      * rewrite decide_False by prop_solve. rewrite Hsame by done. apply Hidx.
    + intros t. destruct (decide (t = task_id)) as [->|Htt].
      * intros _. by exists nd.
      * rewrite Hsame by done. apply Hdues.
  - (* no due time in the update *)
    simpl.
    match goal with
    | |- due_index_agrees ?r2 _ ∧ _ => set (r' := r2)
    end.
    assert (∀ t, hgetall r' (_task_key t)
                 = hgetall (hset r (_task_key task_id)
                     (TaskStore.apply_updates (hgetall r (_task_key task_id))
                        updates due)) (_task_key t)) as Hrecs.
    { intros t. apply hgetall_hashes. subst r'.
      destruct (updates !! "status") as [ns|];
        [destruct (decide (ns ≠ PStr st))|]; reflexivity. }
    assert (zsets r' = zsets r) as Hzs.
    { subst r'.
      destruct (updates !! "status") as [ns|];
        [destruct (decide (ns ≠ PStr st))|]; reflexivity. }
    assert (∀ t, hgetall r' (_task_key t) !! "due_time"
                 = hgetall r (_task_key t) !! "due_time") as Hsame.
    { intros t. rewrite Hrecs. destruct (decide (t = task_id)) as [->|Htt].
      - etrans; [apply updated_record|]. by rewrite Hv.
      - rewrite hgetall_hset, decide_False; [done|].
        intros H. apply task_key_inj in H. congruence. }
    split.
    + intros t u d. rewrite (zscore_zsets _ _ _ _ Hzs), Hsame. apply Hidx.
    + intros t Hne'. rewrite Hsame.
      destruct (decide (t = task_id)) as [->|Htt]; [by exists due|].
      apply Hdues. intros He. apply Hne'. rewrite Hrecs.
      rewrite hgetall_hset, decide_False; [done|].
      intros H. apply task_key_inj in H. congruence.
Qed.

Lemma due_index_delete (r : redis) (own : gmap string string)
    (user_id task_id : string) :
  (∀ d s, fromtimestamp_strftime d = Ok s → s ≠ "") →
  records_known r own → due_index_agrees r own → dues_written r →
  (hgetall r (_task_key task_id) ≠ ∅ → own !! task_id = Some user_id) →
  let r' := state_after r (delete_task r user_id task_id) in
  due_index_agrees r' own ∧ dues_written r'.
Proof.
  intros Hfmt Hrec Hidx Hdues Hown r'. unfold due_index_agrees in Hidx.
  destruct (decide (hgetall r (_task_key task_id) = ∅)) as [He|Hne].
  { subst r'. unfold TaskStore.delete_task, TaskStore.get_task.
    by rewrite decide_True. }
  specialize (Hown Hne).
  destruct (Hrec _ Hne) as [_ (st & _ & Hst)].
  destruct (Hdues _ Hne) as (due & Hdue & Hdue0).
  assert (holds_task r task_id st due) as Ht by done.
  assert (∀ d, due = Some d → d ≠ 0) as Hnz by (intros d -> ->; done).
  assert ((∃ d e, due = Some d ∧ fromtimestamp_strftime d = Raise e) ∨
          (∀ d, due = Some d →
                d ≠ 0 ∧ ∃ s, fromtimestamp_strftime d = Ok s ∧ s ≠ ""))
    as [(d & e & -> & Hraise)|Hshown].
  { destruct due as [d|]; [|by right].
    destruct (fromtimestamp_strftime d) as [s|e] eqn:Hs.
    - right. intros d' [= <-]. split; [by apply Hnz|].
      exists s. split; [done|]. by eapply Hfmt.
    - left. by exists d, e. }
  { (* the due time cannot be shown: the call raises before any write *)
    subst r'. unfold TaskStore.delete_task.
    rewrite (get_task_found _ _ _ _ Ht). simpl.
    rewrite decide_False by (by apply Hnz). by rewrite Hraise. }
  subst r'. rewrite (delete_task_found _ _ _ _ _ Ht Hshown).
  unfold state_after.
  match goal with
  | |- due_index_agrees ?r2 _ ∧ _ => set (r' := r2)
  end.
  assert (∀ t, hgetall r' (_task_key t)
               = if decide (t = task_id) then ∅ else hgetall r (_task_key t))
    as Hrecs.
  { intros t. subst r'. rewrite hgetall_del.
    destruct (decide (t = task_id)) as [->|Htt].
    - by rewrite decide_True.
    - rewrite decide_False by (intros H; apply task_key_inj in H; congruence).
      apply hgetall_hashes. unfold drop_status.
      destruct due; case_decide; reflexivity. }
  assert (∀ u t, zscore r' (_due_key u) t
                 = if decide (u = user_id ∧ t = task_id ∧ is_Some due) then None
                   else zscore r (_due_key u) t) as Hz.
  { intros u t. subst r'. unfold zscore at 1. rewrite zmembers_del.
    rewrite decide_False by apply task_key_not_due.
    change (zmembers ?x (_due_key u) !! t) with (zscore x (_due_key u) t).
    destruct due as [d|].
    - rewrite zscore_zrem. case_decide as Hk.
      + destruct Hk as [Hk <-]. apply due_key_inj in Hk. subst u.
        by rewrite decide_True.
      + rewrite decide_False by (intros (-> & -> & _); prop_solve).
        apply zscore_zsets. unfold drop_status. case_decide; reflexivity.
    - rewrite decide_False by (intros (_ & _ & [? ?]); done).
      apply zscore_zsets. unfold drop_status. case_decide; reflexivity. }
  split.
  - intros t u d. rewrite Hz, Hrecs.
    destruct (decide (t = task_id)) as [->|Htt].
    + rewrite lookup_empty. split; [|by intros [_ ?]].
      case_decide as Hk; [done|]. intros Hzz. exfalso.
      apply Hidx in Hzz as [Hu Hd]. rewrite Hdue in Hd.
      apply Hk. split; [congruence|]. split; [done|].
      injection Hd as Hd. apply encode_due_str_Z in Hd. by rewrite Hd.
    + rewrite decide_False by prop_solve. apply Hidx.
  - intros t. rewrite Hrecs. case_decide; [done|]. apply Hdues.
Qed.

Lemma due_index_from (ops : list op) (r : redis) (own : gmap string string) :
  (∀ d s, fromtimestamp_strftime d = Ok s → s ≠ "") →
  consistent r own → due_index_agrees r own → dues_written r →
  admissible_from r own ops →
  Forall (away_from_epoch0 dateparser_parse) ops →
  due_index_agrees (foldl step r ops) (foldl owners_step own ops).
Proof.
  intros Hfmt. revert r own.
  induction ops as [|o ops IH]; intros r own Hc Hidx Hdues Ha Hz; [done|].
  destruct Ha as [Ho Hrest]. apply Forall_cons in Hz as [Hoz Hz]. simpl.
  assert (due_index_agrees (step r o) (owners_step own o) ∧
          dues_written (step r o)) as [Hidx' Hdues'].
  { destruct Hc as [_ Hrec]. destruct o as [id now u desc st due|u t upd|u t].
    - destruct Ho as [Hfresh _]. by apply due_index_create.
    - destruct Ho as [Hown _]. by apply due_index_update.
    - by apply due_index_delete. }
  apply IH; [|done..]. by apply consistent_step.
Qed.

(** X8. Along every run of creations, updates and deletes in which each
    call on an existing task is made with its owning user, every status
    given is pending or completed and no due time given is epoch 0, and
    with a formatter that never answers the empty string, after each call
    a task id is in the due index of a user at a score exactly when that
    user owns the task and its record holds that score as its due time. *)
Theorem due_index_consistent (ops : list op) (n : nat) :
  (∀ d s, fromtimestamp_strftime d = Ok s → s ≠ "") →
  admissible_run ops →
  Forall (away_from_epoch0 dateparser_parse) ops →
  due_index_agrees (run (take n ops)) (owners (take n ops)).
Proof.
  intros Hfmt Ha Hz.
  apply (due_index_from (take n ops) empty_redis ∅); try done.
  - apply consistent_empty.
  - apply due_index_empty.
  - apply due_index_empty.
  - apply (admissible_from_app _ _ _ (drop n ops)). by rewrite take_drop.
  - by apply Forall_take.
Qed.

End MoreProperties.

(** ** POST /tasks and the status index *)

Lemma creates_admissible (fromtimestamp_strftime : Z → result string)
    (dateparser_parse : string → option Z) (uuid4 : nat → string) (now : Z)
    (user_id : string) (tasks : list TaskStore.bulk_task) (i : nat) (r : redis)
    (own : gmap string string) :
  Forall (λ task, valid_status (default "pending" (TaskStore.bulk_status task)))
         tasks →
  NoDup (uuid4 <$> seq i (length tasks)) →
  (∀ j, (i ≤ j < i + length tasks)%nat → own !! uuid4 j = None) →
  admissible_from fromtimestamp_strftime dateparser_parse r own
    (creates uuid4 now user_id i tasks) ∧
  foldl owners_step own (creates uuid4 now user_id i tasks)
  = created_by user_id (uuid4 <$> seq i (length tasks)) own.
Proof.
  revert i r own. induction tasks as [|task rest IH]; intros i r own Hv Hnd Hfresh;
    [done|].
  apply Forall_cons in Hv as [Hv Hrest].
  simpl in Hnd. apply NoDup_cons in Hnd as [Hi Hnd].
  destruct (IH (S i) (step fromtimestamp_strftime dateparser_parse r (Create (uuid4 i) now user_id
                                (TaskStore.bulk_description task)
                                (default "pending" (TaskStore.bulk_status task))
                                (TaskStore.bulk_due_time task)))
              (<[uuid4 i := user_id]> own) Hrest Hnd) as [Ha Ho].
  { intros j Hj. rewrite lookup_insert_ne.
    - apply Hfresh. simpl. lia.
    - intros Heq. apply Hi. rewrite Heq. apply list_elem_of_fmap.
      exists j. split; [done|]. apply elem_of_seq. lia. }
  split.
  - split; [|exact Ha]. split; [|done]. apply Hfresh. simpl. lia.
  - exact Ho.
Qed.

(** X20. POST /tasks keeps the status index in step with the records:
    on a server where they agree, with statuses of the enumeration and
    ids that are distinct and not yet drawn, a request that is answered
    returns these ids in the order of the tasks and leaves a server on
    which a task id is in the bucket of a user and a status exactly when
    that user owns the task and its record has that status. *)
Theorem create_tasks_keeps_status_index (dateparser_parse : string → option Z)
    (r : redis) (own : gmap string string) (uuid4 : nat → string) (now : Z)
    (user_id : string) (tasks : list Main.TaskCreate) :
  consistent r own →
  Forall (λ task, valid_status (Main.create_status task)) tasks →
  NoDup (uuid4 <$> seq 0 (length tasks)) →
  (∀ i, (i < length tasks)%nat → own !! uuid4 i = None) →
  ∀ r' task_ids,
    Main.create_tasks dateparser_parse r uuid4 now user_id tasks
    = (r', Main.Respond task_ids) →
    task_ids = uuid4 <$> seq 0 (length tasks) ∧
    status_index_agrees r' (created_by user_id task_ids own).
Proof.
  intros Hc Hv Hnd Hfresh r' task_ids. unfold Main.create_tasks.
  match goal with
  | |- context [mapM ?g tasks] => set (f := g)
  end.
  destruct (mapM f tasks) as [dicts|] eqn:Hm; [|done].
  apply mapM_Forall2 in Hm.
  assert (length dicts = length tasks) as Hlen
    by (symmetry; by eapply Forall2_length).
  assert (Forall (λ task, valid_status (default "pending"
                                          (TaskStore.bulk_status task))) dicts)
    as Hvd.
  { clear Hnd Hfresh Hlen. induction Hm as [|a b l l' Hab _ IH]; [done|].
    apply Forall_cons in Hv as [Ha Hl]. constructor; [|by apply IH].
    unfold f in Hab. destruct (Main.parsed_or_none _ _); [|done].
    simpl in Hab. injection Hab as <-. done. }
  unfold TaskStore.create_tasks_bulk.
  pose proof (queue_tasks_creates (λ _, Raise ValueError) dateparser_parse
                uuid4 now user_id dicts 0 r) as [H1 H2].
  destruct (TaskStore.queue_tasks uuid4 now user_id 0 dicts) as [ids pipe].
  simpl in H1, H2. intros [= <- <-]. rewrite H1, H2, Hlen.
  split; [done|].
  destruct (creates_admissible (λ _, Raise ValueError) dateparser_parse
              uuid4 now user_id dicts 0 r own Hvd) as [Ha Ho].
  { by rewrite Hlen. }
  { intros j Hj. apply Hfresh. lia. }
  rewrite Hlen in Ho. rewrite <-Ho.
  by apply consistent_from.
Qed.

(** ** The properties at work on the scenarios *)

Lemma string_app_nonempty (a b : string) : a ≠ "" → a +:+ b ≠ "".
Proof. destruct a; [done|]. intros _. cbv [String.app]. discriminate. Qed.

Lemma strftime_utc_nonempty (d : Z) (s : string) : strftime_utc d = Ok s → s ≠ "".
Proof.
  unfold strftime_utc. destruct (civil_from_days _) as [[y m] day].
  destruct (_ && _); [|done]. intros [= <-].
  apply string_app_nonempty, str_Z_nonempty.
Qed.

Lemma milk_due_shown (d : Z) :
  Some 500 = Some d → d ≠ 0 ∧ ∃ s, strftime_utc d = Ok s ∧ s ≠ "".
Proof.
  intros [= <-]. split; [done|].
  exists "1970-01-01 00:08:20". split; [by vm_compute | done].
Qed.

Lemma milk_year_10000_holds :
  holds_task milk_year_10000 "t1" "pending" (Some 253402300800).
Proof. split; by vm_compute. Qed.

Lemma milk_postponed_admissible : admissible_run strftime_utc parse_epoch milk_postponed.
Proof.
  unfold admissible_run, milk_postponed. simpl.
  split; [split; [done | by left]|]. split; [|split; [|done]].
  - split; [intros _; by vm_compute|].
    intros v Hv. vm_compute in Hv. discriminate.
  - intros _. by vm_compute.
Qed.

Lemma milk_postponed_away : Forall (away_from_epoch0 parse_epoch) milk_postponed.
Proof.
  repeat constructor; [done|].
  intros s Hs. vm_compute in Hs. injection Hs as <-. by vm_compute.
Qed.

Lemma create_then_get_witness :
  hgetall empty_redis (_task_key "t1") = ∅ ∧
  TaskStore.get_task strftime_utc (milk (Some 500)) "t1"
  = Ok (Some (shown_task "t1" "u1" "buy milk" "pending" 7
                (PStr "1970-01-01 00:08:20"))).
Proof.
  split; [reflexivity|].
  etrans; [apply (create_then_get strftime_utc empty_redis); reflexivity|].
  by vm_compute.
Defined.

Lemma create_task_touches_new_task_only_witness :
  "t1" ≠ "t2" ∧
  hgetall (TaskStore.create_task (milk (Some 500)) "t2" 8 "u2" "pay rent"
             "pending" (Some 900)).1 (_task_key "t1")
  = hgetall (milk (Some 500)) (_task_key "t1") ∧
  (∀ k, "t1" ∈ smembers (TaskStore.create_task (milk (Some 500)) "t2" 8 "u2"
                           "pay rent" "pending" (Some 900)).1 k
        ↔ "t1" ∈ smembers (milk (Some 500)) k) ∧
  (∀ k, zscore (TaskStore.create_task (milk (Some 500)) "t2" 8 "u2" "pay rent"
                  "pending" (Some 900)).1 k "t1"
        = zscore (milk (Some 500)) k "t1").
Proof.
  split; [done|].
  apply (create_task_touches_new_task_only (milk (Some 500)) "t2" 8 "u2" "pay rent"
           "pending" (Some 900) "t1"). done.
Defined.

Lemma update_status_moves_task_witness :
  ∃ r', TaskStore.update_task parse_epoch (milk (Some 500)) "u1" "t1"
          {[ "status" := PStr "completed" ]} = Ok (r', true) ∧
        holds_task r' "t1" (stored_value (PStr "completed")) (Some 500) ∧
        "t1" ∈ smembers r' (_status_key "u1" (py_str (PStr "completed"))) ∧
        (py_str (PStr "completed") ≠ "pending" →
         "t1" ∉ smembers r' (_status_key "u1" "pending")) ∧
        (∀ k t, t ≠ "t1" → t ∈ smembers r' k ↔ t ∈ smembers (milk (Some 500)) k) ∧
        zsets r' = zsets (milk (Some 500)).
Proof.
  apply (update_status_moves_task parse_epoch (milk (Some 500)) "u1" "t1" "pending"
           (Some 500) {[ "status" := PStr "completed" ]} (PStr "completed"));
    [apply milk_holds | by vm_compute | done | by vm_compute].
Defined.

Lemma update_due_time_reindexes_witness :
  ∃ r', TaskStore.update_task parse_epoch (milk (Some 500)) "u1" "t1"
          {[ "due_time" := PStr "900" ]} = Ok (r', true) ∧
        hgetall r' (_task_key "t1") !! "due_time" = Some (str_Z 900) ∧
        zscore r' (_due_key "u1") "t1" = Some 900 ∧
        (∀ k t, ¬ (k = _due_key "u1" ∧ t = "t1") →
                zscore r' k t = zscore (milk (Some 500)) k t).
Proof.
  apply (update_due_time_reindexes parse_epoch (milk (Some 500)) "u1" "t1" "pending"
           (Some 500) {[ "due_time" := PStr "900" ]} (PStr "900") 900);
    [apply milk_holds | by vm_compute | by intros [?|[?|?]] | by vm_compute].
Defined.

Lemma update_unparseable_due_time_writes_nothing_witness :
  TaskStore.get_parsed_timestamp parse_epoch (PStr "soon") = Raise ValueError ∧
  TaskStore.update_task parse_epoch (milk (Some 500)) "u1" "t1"
    {[ "due_time" := PStr "soon" ]} = Raise ValueError.
Proof.
  split; [by vm_compute|].
  apply (update_unparseable_due_time_writes_nothing parse_epoch (milk (Some 500))
           "u1" "t1" "pending" (Some 500) {[ "due_time" := PStr "soon" ]}
           (PStr "soon") ValueError);
    [apply milk_holds | by vm_compute | by intros [?|[?|?]] | by vm_compute].
Defined.

Lemma delete_removes_task_witness :
  ∃ r', TaskStore.delete_task strftime_utc (milk (Some 500)) "u1" "t1"
        = Ok (r', true) ∧
        hgetall r' (_task_key "t1") = ∅ ∧
        ("t1" ∉ smembers r' (_status_key "u1" "pending")) ∧
        zscore r' (_due_key "u1") "t1" = None ∧
        (∀ t, t ≠ "t1" →
           hgetall r' (_task_key t) = hgetall (milk (Some 500)) (_task_key t) ∧
           (∀ u s, t ∈ smembers r' (_status_key u s)
                   ↔ t ∈ smembers (milk (Some 500)) (_status_key u s)) ∧
           (∀ u, zscore r' (_due_key u) t = zscore (milk (Some 500)) (_due_key u) t)).
Proof.
  apply (delete_removes_task strftime_utc (milk (Some 500)) "u1" "t1" "pending"
           (Some 500)); [apply milk_holds | done | done | apply milk_due_shown].
Defined.

Lemma unformattable_due_time_blocks_task_witness :
  strftime_utc 253402300800 = Raise ValueError ∧
  TaskStore.get_task strftime_utc milk_year_10000 "t1" = Raise ValueError ∧
  Main.get_task strftime_utc milk_year_10000 "t1" = Main.HTTPException 500 ∧
  TaskStore.delete_task strftime_utc milk_year_10000 "u1" "t1" = Raise ValueError ∧
  ∀ ids : gset string,
    "t1" ∈ ids →
    ∃ e', mapM (TaskStore.get_task strftime_utc milk_year_10000) (elements ids)
          = Raise e'.
Proof.
  split; [by vm_compute|].
  apply (unformattable_due_time_blocks_task strftime_utc milk_year_10000 "u1" "t1"
           "pending" 253402300800 ValueError);
    [apply milk_year_10000_holds | done | by vm_compute].
Defined.

Lemma due_index_consistent_witness :
  admissible_run strftime_utc parse_epoch milk_postponed ∧
  Forall (away_from_epoch0 parse_epoch) milk_postponed ∧
  due_index_agrees (run strftime_utc parse_epoch (take 2 milk_postponed))
                   (owners (take 2 milk_postponed)).
Proof.
  split; [apply milk_postponed_admissible|].
  split; [apply milk_postponed_away|].
  apply (due_index_consistent strftime_utc parse_epoch milk_postponed 2
           strftime_utc_nonempty milk_postponed_admissible milk_postponed_away).
Defined.

Lemma get_tasks_defaults_to_both_statuses_witness :
  no_statuses None ∧
  ∀ x, x ∈ [Some (shown_task "t1" "u1" "buy milk" "pending" 7
                    (PStr "1970-01-01 00:08:20"))]
       ↔ ∃ t task, x = Some task ∧
                   (t ∈ smembers (milk (Some 500)) (_status_key "u1" "pending") ∨
                    t ∈ smembers (milk (Some 500)) (_status_key "u1" "completed")) ∧
                   TaskStore.get_task strftime_utc (milk (Some 500)) t
                   = Ok (Some task).
Proof.
  split; [by left|].
  apply (get_tasks_defaults_to_both_statuses strftime_utc parse_epoch
           (milk (Some 500)) "u1" None); [by left | by vm_compute].
Defined.

Lemma delete_handler_cleans_for_user_1_only_witness :
  "u1" ≠ "user-1" ∧
  ∃ r', Main.delete_task strftime_utc (milk (Some 500)) "t1"
        = (r', Main.Respond "Task deleted successfully") ∧
        hgetall r' (_task_key "t1") = ∅ ∧
        ("t1" ∈ smembers r' (_status_key "u1" "pending")
         ↔ "t1" ∈ smembers (milk (Some 500)) (_status_key "u1" "pending")) ∧
        zscore r' (_due_key "u1") "t1" = zscore (milk (Some 500)) (_due_key "u1") "t1".
Proof.
  split; [done|].
  apply (delete_handler_cleans_for_user_1_only strftime_utc (milk (Some 500)) "u1"
           "t1" "pending" (Some 500));
    [apply milk_holds | by left | done | apply milk_due_shown].
Defined.

Lemma falsy_status_strands_task_witness :
  Main.TaskUpdate_validate_status None = Ok None ∧
  ∃ r1 r2,
    Main.update_task parse_epoch (milk (Some 500)) "t1" null_status
    = (r1, Main.Respond "Task updated successfully") ∧
    hgetall r1 (_task_key "t1") !! "status" = Some "" ∧
    ("t1" ∉ smembers r1 (_status_key "u1" "pending")) ∧
    "t1" ∈ smembers r1 (_status_key "u1" "None") ∧
    TaskStore.delete_task strftime_utc r1 "u1" "t1" = Ok (r2, true) ∧
    hgetall r2 (_task_key "t1") = ∅ ∧
    "t1" ∈ smembers r2 (_status_key "u1" "None").
Proof.
  apply (falsy_status_strands_task strftime_utc parse_epoch (milk (Some 500)) "t1"
           "pending" (Some 500) null_status None);
    [apply milk_holds | by left | done | by left | done | done | apply milk_due_shown].
Defined.

Lemma create_tasks_all_or_nothing_witness :
  parse_epoch "soon" = None ∧
  Main.create_tasks parse_epoch (milk (Some 500)) two_ids 8 "u1"
    [ {| Main.create_description := "pay rent"; Main.create_due_time := None;
         Main.create_status := "pending"; Main.create_user_id := "u1" |};
      {| Main.create_description := "call home"; Main.create_due_time := Some "soon";
         Main.create_status := "pending"; Main.create_user_id := "u1" |} ]
  = (milk (Some 500), Main.HTTPException 500).
Proof.
  split; [by vm_compute|].
  apply (create_tasks_all_or_nothing parse_epoch (milk (Some 500)) two_ids 8 "u1" _
           {| Main.create_description := "call home";
              Main.create_due_time := Some "soon";
              Main.create_status := "pending"; Main.create_user_id := "u1" |}
           "soon");
    [by right; left | done | done | by vm_compute].
Defined.

Lemma create_tasks_ignores_task_user_id_witness :
  Main.create_tasks parse_epoch empty_redis two_ids 7 "u1" (two_tasks "u1")
  = Main.create_tasks parse_epoch empty_redis two_ids 7 "u1" (two_tasks "u2").
Proof.
  apply (create_tasks_ignores_task_user_id parse_epoch empty_redis two_ids 7 "u1"
           (two_tasks "u1") (two_tasks "u2")).
  by repeat constructor.
Defined.

Lemma create_tasks_keeps_status_index_witness :
  Main.create_tasks parse_epoch empty_redis two_ids 7 "u1" (two_tasks "u2")
  = ((Main.create_tasks parse_epoch empty_redis two_ids 7 "u1" (two_tasks "u2")).1,
     Main.Respond ["t1"; "t2"]) ∧
  status_index_agrees
    (Main.create_tasks parse_epoch empty_redis two_ids 7 "u1" (two_tasks "u2")).1
    (created_by "u1" ["t1"; "t2"] ∅).
Proof.
  assert (Main.create_tasks parse_epoch empty_redis two_ids 7 "u1" (two_tasks "u2")
          = ((Main.create_tasks parse_epoch empty_redis two_ids 7 "u1"
                (two_tasks "u2")).1, Main.Respond ["t1"; "t2"])) as Hans
    by (by vm_compute).
  split; [exact Hans|].
  apply (create_tasks_keeps_status_index parse_epoch empty_redis ∅ two_ids 7 "u1"
           (two_tasks "u2")); [apply consistent_empty | | | | exact Hans].
  - apply Forall_cons. split; [by left|].
    apply Forall_cons. split; [by right|]. constructor.
  - apply (bool_decide_unpack _). by vm_compute.
  - intros i _. apply lookup_empty.
Defined.
